(** * undrp.pdf: the sequential PDF writer

    A shallow embedding of [src/undrp/pdf.py] (class [PdfWriter] and the
    function [as_ascii]) as a state-and-exception monad over the writer's
    fields and its destination sink, followed by the properties of the
    writer that the specification states.

    Conventions.
    - Python [bytes] are [string]s (one [ascii] per byte); a Python [str]
      is a [string] too, its characters read as code points below 256.
    - Python [int]s are [Z]; byte counts and offsets, which are never
      negative, are [nat].
    - The destination [out] is an append-only byte sink whose [write]
      always succeeds (an in-memory buffer or an open file). *)

From Stdlib Require Import ZArith Ascii String.
From stdpp Require Import gmap strings list fin_maps pretty sorting.

Open Scope string_scope.
Open Scope Z_scope.

(** Appending to a literal computes; appending to an unknown string does not. *)
Arguments String.append !s1 s2 / : simpl nomatch.

(** ** Values, errors, outcomes *)

(** The exceptions the module can raise or let through. *)
Inductive exn : Type :=
| RuntimeError (msg : string)      (* [raise RuntimeError("PDF writer is closed")] *)
| KeyError (key : string)          (* a failed lookup [TABLE[key]] *)
| UnicodeEncodeError               (* [str.encode("ascii")] on a non-ASCII text *)
| ExternalError (name : string).   (* raised by a collaborator or by the caller's code *)

(** How a block of Python code ends: it falls through with a value, it
    executes [return] (leaving the enclosing function from inside a
    [with] block), or it raises. *)
Inductive outcome (A : Type) : Type :=
| Ok (a : A)
| Return_
| Raise (e : exn).
Arguments Ok {A} a.
Arguments Return_ {A}.
Arguments Raise {A} e.

(** The scalars that reach [_write]: byte strings, texts and integers. *)
Inductive pyval : Type :=
| Bytes (b : string)
| Str (s : string)
| Int (z : Z).

(** What [PIL.Image.open] exposes of a decoded image. *)
Record Image : Type := mkImage {
  img_size : Z * Z;        (* (width, height) *)
  img_mode : string;
  img_format : string
}.

(** The [contents_id] argument of [write_page]: one id, or an iterable. *)
Inductive contents_ids : Type :=
| OneId (id : Z)
| ManyIds (ids : list Z).

(** ** The writer object and its surroundings *)

(** The attributes of [self]. [out] records whether [self.out] still
    holds the sink ([true]) or is [None] ([false]); [_id_stream] is the
    next value of [itertools.count(1)]. *)
Record PdfWriter : Type := mkPdfWriter {
  out : bool;
  owned : bool;
  _id_stream : Z;
  _page_ids : list Z;
  _page_tree_root_id : option Z;
  _pos : nat;
  _xrefs : gmap Z nat
}.

(** The writer together with what it shares with its environment: the
    bytes the sink has received, how often the sink was closed, and the
    closure cells [first] that [start_array] allocates, one per array. *)
Record world : Type := mkWorld {
  self : PdfWriter;
  sink : string;
  sink_closes : nat;
  cells : list bool
}.

Definition M (A : Type) : Type := world -> outcome A * world.

Definition ret {A} (a : A) : M A := fun w => (Ok a, w).

Definition bind {A B} (m : M A) (k : A -> M B) : M B := fun w =>
  match m w with
  | (Ok a, w') => k a w'
  | (Return_, w') => (Return_, w')
  | (Raise e, w') => (Raise e, w')
  end.

Definition throw {A} (e : exn) : M A := fun w => (Raise e, w).
Definition return_ {A} : M A := fun w => (Return_, w).

Definition gets {A} (f : PdfWriter -> A) : M A := fun w => (Ok (f (self w)), w).
Definition modify (f : PdfWriter -> PdfWriter) : M unit := fun w =>
  (Ok tt, mkWorld (f (self w)) (sink w) (sink_closes w) (cells w)).

(** A pure call that may raise. *)
Definition eval {A} (r : exn + A) : M A :=
  match r with inl e => throw e | inr a => ret a end.

Arguments ret {A} a w /.
Arguments bind {A B} m k w /.
Arguments throw {A} e w /.
Arguments return_ {A} w /.
Arguments gets {A} f w /.
Arguments modify f w /.
Arguments eval {A} !r /.

Declare Scope py_scope.
Delimit Scope py_scope with py.
Notation "x <- m ;; k" := (bind m (fun x => k))
  (at level 100, m at next level, right associativity) : py_scope.
Notation "m ;; k" := (bind m (fun _ => k))
  (at level 100, right associativity) : py_scope.
Open Scope py_scope.

(** Field updates of [self]. *)
Definition set_out (o : bool) (p : PdfWriter) : PdfWriter :=
  mkPdfWriter o (owned p) (_id_stream p) (_page_ids p) (_page_tree_root_id p) (_pos p) (_xrefs p).
Definition set_id_stream (n : Z) (p : PdfWriter) : PdfWriter :=
  mkPdfWriter (out p) (owned p) n (_page_ids p) (_page_tree_root_id p) (_pos p) (_xrefs p).
Definition set_page_ids (l : list Z) (p : PdfWriter) : PdfWriter :=
  mkPdfWriter (out p) (owned p) (_id_stream p) l (_page_tree_root_id p) (_pos p) (_xrefs p).
Definition set_page_tree_root_id (r : option Z) (p : PdfWriter) : PdfWriter :=
  mkPdfWriter (out p) (owned p) (_id_stream p) (_page_ids p) r (_pos p) (_xrefs p).
Definition set_pos (n : nat) (p : PdfWriter) : PdfWriter :=
  mkPdfWriter (out p) (owned p) (_id_stream p) (_page_ids p) (_page_tree_root_id p) n (_xrefs p).
Definition set_xrefs (x : gmap Z nat) (p : PdfWriter) : PdfWriter :=
  mkPdfWriter (out p) (owned p) (_id_stream p) (_page_ids p) (_page_tree_root_id p) (_pos p) x.

Arguments set_out o !p /.
Arguments set_id_stream n !p /.
Arguments set_page_ids l !p /.
Arguments set_page_tree_root_id r !p /.
Arguments set_pos n !p /.
Arguments set_xrefs x !p /.

(** [self.out.write(bs)] and [self.out.close()] on the sink. *)
Definition out_write (bs : string) : M unit := fun w =>
  (Ok tt, mkWorld (self w) (sink w +:+ bs) (sink_closes w) (cells w)).
Definition out_close : M unit := fun w =>
  (Ok tt, mkWorld (self w) (sink w) (S (sink_closes w)) (cells w)).

(** Closure cells: allocation, read, write. A cell that was never
    allocated reads as [True], the value [first] starts with. *)
Definition new_cell (b : bool) : M nat := fun w =>
  (Ok (length (cells w)), mkWorld (self w) (sink w) (sink_closes w) (cells w ++ [b])).
Definition read_cell (c : nat) : M bool := fun w =>
  (Ok (default true (cells w !! c)), w).
Definition write_cell (c : nat) (b : bool) : M unit := fun w =>
  (Ok tt, mkWorld (self w) (sink w) (sink_closes w) (<[c := b]> (cells w))).

Arguments out_write bs w /.
Arguments out_close w /.
Arguments new_cell b w /.
Arguments read_cell c w /.
Arguments write_cell c b w /.

(** A generator-based context manager ([@contextmanager]) used in a
    [with] statement: [enter] is the code before [yield] and produces the
    yielded value, [exit] the code after it. When the block falls through
    or leaves by [return], the generator is resumed and [exit] runs; when
    the block raises, the exception is thrown into the generator at the
    [yield], where nothing catches it, so [exit] is skipped and the
    exception propagates. *)
Definition with_ {X A} (enter : M X) (exit : M unit) (body : X -> M A) : M A := fun w =>
  match enter w with
  | (Ok x, w1) =>
      match body x w1 with
      | (Ok a, w2) =>
          match exit w2 with
          | (Ok _, w3) => (Ok a, w3)
          | (Return_, w3) => (Return_, w3)
          | (Raise e, w3) => (Raise e, w3)
          end
      | (Return_, w2) =>
          match exit w2 with
          | (Raise e, w3) => (Raise e, w3)
          | (_, w3) => (Return_, w3)
          end
      | (Raise e, w2) => (Raise e, w2)
      end
  | (Return_, w1) => (Return_, w1)
  | (Raise e, w1) => (Raise e, w1)
  end.

Arguments with_ {X A} enter exit body w /.

(** [for x in xs: body], where [x] is a variable of the enclosing
    function: the loop rebinds it, and the result is its final binding
    ([x0], the binding before the loop, when [xs] is empty). *)
Fixpoint for_ {X} (xs : list X) (x0 : X) (body : X -> M unit) : M X :=
  match xs with
  | [] => ret x0
  | x :: xs' => body x ;; for_ xs' x body
  end.

(** [for x in xs: body] where the loop variable is not read afterwards. *)
Fixpoint for_each {X} (xs : list X) (body : X -> M unit) : M unit :=
  match xs with
  | [] => ret tt
  | x :: xs' => body x ;; for_each xs' body
  end.

Arguments for_ : simpl never.
Arguments for_each : simpl never.

(** ** Module-level tables and helpers *)

Definition nl : string := String (ascii_of_nat 10) EmptyString.

(** [CONTENT_STREAM_TEMPLATE.format(height=height, width=width)] *)
Definition CONTENT_STREAM_TEMPLATE (width height : Z) : string :=
  "q" +:+ nl +:+
  pretty width +:+ " 0 0 " +:+ pretty height +:+ " 0 0 cm" +:+ nl +:+
  "/Img Do" +:+ nl +:+
  "Q".

Definition FORMAT2FILTER : gmap string string :=
  {[ "JPEG" := "/DCTDecode" ]}.

Definition MODE2COLOR_SPACE : gmap string string :=
  {[ "L" := "/DeviceGray"; "RGB" := "/DeviceRGB" ]}.

(** [TABLE[key]], raising [KeyError] on a missing key. *)
Definition getitem (table : gmap string string) (key : string) : exn + string :=
  match table !! key with
  | Some v => inr v
  | None => inl (KeyError key)
  end.

Definition is_ascii_char (c : ascii) : bool :=
  match c with Ascii _ _ _ _ _ _ _ b7 => negb b7 end.

Fixpoint is_ascii (s : string) : bool :=
  match s with
  | EmptyString => true
  | String c s' => is_ascii_char c && is_ascii s'
  end.

Definition as_ascii (obj : pyval) : exn + string :=
  match obj with
  | Bytes b => inr b
  | Str s => if is_ascii s then inr s else inl UnicodeEncodeError
  | Int z => inr (pretty z)
  end.

Fixpoint zeros (n : nat) : string :=
  match n with O => "" | S n' => String "0" (zeros n') end.

(** ["{:0<width>d}".format(n)] for a non-negative [n]. *)
Definition format_0d (width : nat) (n : N) : string :=
  let digits := pretty n in
  zeros (width - String.length digits) +:+ digits.

Definition xref_le (x y : Z * nat) : Prop := x.1 ≤ y.1.
#[global] Instance xref_le_dec : RelDecision xref_le :=
  fun x y => Z_le_dec (x.1) (y.1).

(** [sorted(xrefs.items())]: the keys are distinct, so the order of the
    pairs is the order of their keys. *)
Definition sorted_items (xrefs : gmap Z nat) : list (Z * nat) :=
  merge_sort xref_le (map_to_list xrefs).

(** ** class PdfWriter *)

Definition PdfWriter_init (owned : bool) : world :=
  mkWorld (mkPdfWriter true owned 1 [] None 0 ∅) "" 0 [].

Definition _write (bs : pyval) : M unit :=
  o <- gets out ;;
  if negb o then throw (RuntimeError "PDF writer is closed")
  else
    bs <- eval (as_ascii bs) ;;
    out_write bs ;;
    modify (fun p => set_pos (_pos p + String.length bs) p).

Definition _write_header : M unit :=
  pos <- gets _pos ;;
  if (pos =? 0)%nat then _write (Bytes ("%PDF-1.7" +:+ nl)) else ret tt.

Definition next_object_id : M Z :=
  n <- gets _id_stream ;;
  modify (set_id_stream (n + 1)) ;;
  ret n.

Definition start_array_element {A} (first : nat) (body : M A) : M A :=
  with_
    (f <- read_cell first ;;
     if f then write_cell first false else _write (Bytes " "))
    (ret tt)
    (fun _ => body).

Definition start_array {A} (body : nat -> M A) : M A :=
  with_
    (_write_header ;;
     first <- new_cell true ;;
     _write (Bytes "[") ;;
     ret first)
    (_write (Bytes "]"))
    body.

Definition start_dict_entry {A} (key : string) (body : M A) : M A :=
  with_
    (_write (Bytes "/") ;;
     _write (Bytes key) ;;
     _write (Bytes " "))
    (_write (Bytes nl))
    (fun _ => body).

Definition start_dict {A} (body : M A) : M A :=
  with_
    (_write_header ;;
     _write (Bytes ("<<" +:+ nl)))
    (_write (Bytes (">>" +:+ nl)))
    (fun _ => body).

Definition start_object {A} (id : option Z) (body : Z -> M A) : M A :=
  with_
    (_write_header ;;
     id <- match id with
           | None => next_object_id
           | Some id => ret id
           end ;;
     pos <- gets _pos ;;
     modify (fun p => set_xrefs (<[id := pos]> (_xrefs p)) p) ;;
     bs <- eval (as_ascii (Int id)) ;;
     _write (Bytes bs) ;;
     _write (Bytes (" 0 obj" +:+ nl)) ;;
     ret id)
    (_write (Bytes ("endobj" +:+ nl)))
    body.

Definition start_stream {A} (body : M A) : M A :=
  with_
    (_write_header ;;
     _write (Bytes ("stream" +:+ nl)))
    (_write (Bytes (nl +:+ "endstream" +:+ nl)))
    (fun _ => body).

Definition _write_ref (id : Z) : M unit :=
  bs <- eval (as_ascii (Int id)) ;;
  _write (Bytes bs) ;;
  _write (Bytes " 0 R").

(** [x or y] on an optional id: [None] and [0] are falsy. *)
Definition truthy (x : option Z) : bool :=
  match x with
  | Some z => negb (z =? 0)
  | None => false
  end.

Definition write_page (id : option Z) (contents_id : option contents_ids)
    (media_box : option (pyval * pyval * pyval * pyval))
    (parent_id : option Z) (resources : option pyval) : M Z :=
  _write_header ;;
  parent_id <- match parent_id with
               | None =>
                   root <- gets _page_tree_root_id ;;
                   root <- (if truthy root then ret (default 0 root)
                            else next_object_id) ;;
                   modify (set_page_tree_root_id (Some root)) ;;
                   ret root
               | Some parent_id => ret parent_id
               end ;;
  start_object id (fun id =>
    modify (fun p => set_page_ids (_page_ids p ++ [id]) p) ;;
    start_dict (
      start_dict_entry "Type" (_write (Bytes "/Page")) ;;
      start_dict_entry "Parent" (_write_ref parent_id) ;;
      match resources with
      | Some resources => start_dict_entry "Resources" (_write resources)
      | None => ret tt
      end ;;
      match media_box with
      | Some (ll_x, ll_y, ur_x, ur_y) =>
          start_dict_entry "MediaBox" (
            start_array (fun start_array_element_ =>
              start_array_element start_array_element_ (_write ll_x) ;;
              start_array_element start_array_element_ (_write ll_y) ;;
              start_array_element start_array_element_ (_write ur_x) ;;
              start_array_element start_array_element_ (_write ur_y)))
      | None => ret tt
      end ;;
      match contents_id with
      | Some (ManyIds ids) =>
          start_dict_entry "Contents" (
            start_array (fun start_array_element_ =>
              for_ ids id (fun id =>
                start_array_element start_array_element_ (_write_ref id))))
      | Some (OneId contents_id) =>
          start_dict_entry "Contents" (_write_ref contents_id) ;;
          ret id
      | None => ret id
      end)).

Section ImageDecoder.

(** [Image.open(BytesIO(contents_bytes))]: the image-decoding
    collaborator, which either raises or yields the image's metadata. *)
Variable Image_open : string -> exn + Image.

(** [contents] stands for the bytes that [contents.read()] returns. *)
Definition write_image_page (id : option Z) (contents : string)
    (contents_id image_id : option Z)
    (media_box : option (pyval * pyval * pyval * pyval))
    (parent_id : option Z) : M Z :=
  _write_header ;;
  let contents_bytes := contents in
  image_obj <- eval (Image_open contents_bytes) ;;
  let '(width, height) := img_size image_obj in
  color_space <- eval (getitem MODE2COLOR_SPACE (img_mode image_obj)) ;;
  filter <- eval (getitem FORMAT2FILTER (img_format image_obj)) ;;
  let content_stream := CONTENT_STREAM_TEMPLATE width height in
  let media_box :=
    match media_box with
    | None => (Int 0, Int 0, Int width, Int height)
    | Some media_box => media_box
    end in
  image_id <- start_object image_id (fun image_id =>
    start_dict (
      start_dict_entry "Type" (_write (Bytes "/XObject")) ;;
      start_dict_entry "Subtype" (_write (Bytes "/Image")) ;;
      start_dict_entry "Width" (_write (Int width)) ;;
      start_dict_entry "Height" (_write (Int height)) ;;
      start_dict_entry "ColorSpace" (_write (Bytes color_space)) ;;
      start_dict_entry "BitsPerComponent" (_write (Bytes "8")) ;;
      start_dict_entry "Length" (_write (Int (Z.of_nat (String.length contents_bytes)))) ;;
      start_dict_entry "Filter" (_write (Bytes filter))) ;;
    start_stream (_write (Bytes contents_bytes)) ;;
    ret image_id) ;;
  contents_id <- start_object contents_id (fun contents_id =>
    start_dict (
      start_dict_entry "Length" (
        bs <- eval (as_ascii (Int (Z.of_nat (String.length content_stream)))) ;;
        _write (Bytes bs))) ;;
    start_stream (_write (Str content_stream)) ;;
    ret contents_id) ;;
  write_page id (Some (OneId contents_id)) (Some media_box) parent_id
    (Some (Str ("<< /XObject << /Img " +:+ pretty image_id +:+ " 0 R >> >>"))).

End ImageDecoder.

Definition _write_catalog (id : option Z) (page_tree_root_id : Z) : M Z :=
  start_object id (fun id =>
    start_dict (
      start_dict_entry "Type" (_write (Bytes "/Catalog")) ;;
      start_dict_entry "Pages" (_write_ref page_tree_root_id)) ;;
    ret id).

Definition _write_footer : M unit :=
  _write (Bytes "%%EOF").

Definition _write_page_tree : M Z :=
  root <- gets _page_tree_root_id ;;
  start_object root (fun id =>
    modify (set_page_tree_root_id (Some id)) ;;
    start_dict (
      start_dict_entry "Type" (_write (Bytes "/Pages")) ;;
      start_dict_entry "Kids" (
        start_array (fun start_array_element_ =>
          page_ids <- gets _page_ids ;;
          for_each page_ids (fun page_id =>
            start_array_element start_array_element_ (_write_ref page_id)))) ;;
      start_dict_entry "Count" (
        page_ids <- gets _page_ids ;;
        _write (Int (Z.of_nat (length page_ids))))) ;;
    ret id).

Definition _write_startxref (xref_pos : nat) : M unit :=
  _write (Bytes ("startxref" +:+ nl)) ;;
  bs <- eval (as_ascii (Int (Z.of_nat xref_pos))) ;;
  _write (Bytes bs) ;;
  _write (Bytes nl).

Definition _write_trailer (catalog_id : Z) : M unit :=
  _write (Bytes ("trailer" +:+ nl)) ;;
  _write (Bytes ("<<" +:+ nl)) ;;
  _write (Bytes "/Size ") ;;
  xrefs <- gets _xrefs ;;
  _write (Int (Z.of_nat (size xrefs) + 1)) ;;
  _write (Bytes nl) ;;
  _write (Bytes "/Root ") ;;
  _write (Int catalog_id) ;;
  _write (Bytes (" 0 R" +:+ nl)) ;;
  _write (Bytes (">>" +:+ nl)).

Definition write_entry (id : Z) (offset : nat) (gen : N) (in_use : bool) : M unit :=
  bs <- eval (as_ascii (Int id)) ;;
  _write (Bytes bs) ;;
  _write (Bytes (" 1" +:+ nl)) ;;
  _write (Bytes (format_0d 10 (N.of_nat offset) +:+ " " +:+ format_0d 5 gen +:+ " " +:+
                 (if in_use then "n" else "f") +:+ " " +:+ nl)).

Definition _write_xrefs : M nat :=
  xref_pos <- gets _pos ;;
  xrefs <- gets _xrefs ;;
  let xref_items := sorted_items xrefs in
  _write (Bytes ("xref" +:+ nl)) ;;
  write_entry 0 0 65535 false ;;
  for_each xref_items (fun '(id, offset) => write_entry id offset 0 true) ;;
  ret xref_pos.

Definition close : M unit :=
  o <- gets out ;;
  if negb o then ret tt
  else
    _write_header ;;
    page_tree_root_id <- _write_page_tree ;;
    catalog_id <- _write_catalog None page_tree_root_id ;;
    xref_pos <- _write_xrefs ;;
    _write_trailer catalog_id ;;
    _write_startxref xref_pos ;;
    _write_footer ;;
    owned <- gets owned ;;
    (if owned then out_close else ret tt) ;;
    modify (set_out false).

Definition __enter__ : M unit := _write_header.

Definition __exit__ : M unit := close.

(** [with PdfWriter(out) as writer: body].  Unlike the scopes, the writer
    is a context manager with an [__exit__] method: it runs however the
    block ends, and it returns [None], so an exception of the block
    propagates. *)
Definition with_writer {A} (body : M A) : M A := fun w =>
  match __enter__ w with
  | (Ok _, w1) =>
      let (o, w2) := body w1 in
      match __exit__ w2 with
      | (Raise e, w3) => (Raise e, w3)
      | (_, w3) => (o, w3)
      end
  | (Return_, w1) => (Return_, w1)
  | (Raise e, w1) => (Raise e, w1)
  end.

(** A decoder for examples: the first byte of the data selects the image. *)
Definition sample_decoder (data : string) : exn + Image :=
  match data with
  | String "G" _ => inr (mkImage (2, 3) "L" "JPEG")
  | String "C" _ => inr (mkImage (640, 480) "RGB" "JPEG")
  | String "A" _ => inr (mkImage (4, 4) "RGBA" "PNG")
  | String "P" _ => inr (mkImage (4, 4) "RGB" "PNG")
  | _ => inl (ExternalError "UnidentifiedImageError")
  end.


(** ** Vocabulary of the properties *)

(** The specification's names for the two errors of the module:
    [WriterClosedError] is the [RuntimeError] that [_write] raises, and
    [UnsupportedImageFormatError] the [KeyError] of a failed table lookup
    in [write_image_page]. *)
Definition WriterClosedError : exn := RuntimeError "PDF writer is closed".
Definition UnsupportedImageFormatError (key : string) : exn := KeyError key.

(** The effect of a successful [_write] of the bytes [bs]. *)
Definition emit (bs : string) (w : world) : world :=
  mkWorld (set_pos (_pos (self w) + String.length bs) (self w))
          (sink w +:+ bs) (sink_closes w) (cells w).

Arguments emit bs !w /.

(** What [_write_header] writes in a given state. *)
Definition header_bytes (w : world) : string :=
  if (_pos (self w) =? 0)%nat then "%PDF-1.7" +:+ nl else "".

(** The image is one that [write_image_page] accepts. *)
Definition recognized (Image_open : string -> exn + Image) (contents : string) : Prop :=
  exists img color_space filter,
    Image_open contents = inr img /\
    MODE2COLOR_SPACE !! img_mode img = Some color_space /\
    FORMAT2FILTER !! img_format img = Some filter.

(** The code of [start_object] before its [yield]. *)
Definition start_object_enter (id : option Z) : M Z :=
  _write_header ;;
  id <- match id with
        | None => next_object_id
        | Some id => ret id
        end ;;
  pos <- gets _pos ;;
  modify (fun p => set_xrefs (<[id := pos]> (_xrefs p)) p) ;;
  bs <- eval (as_ascii (Int id)) ;;
  _write (Bytes bs) ;;
  _write (Bytes (" 0 obj" +:+ nl)) ;;
  ret id.

(** The state in which the body of a scope starts: after the header, if
    it was still due. *)
Definition after_header (w : world) : world :=
  if (_pos (self w) =? 0)%nat then emit ("%PDF-1.7" +:+ nl) w else w.

(** A new writer, as [PdfWriter(out)] creates it, and a closed one. *)
Definition new_writer : world := PdfWriter_init true.
Definition closed_sample : world := snd (close new_writer).

(** How a scope ends, given how its body ended: the closing token is
    written after a body that fell through or returned (when the body
    left the writer open; otherwise the closing write fails); after a
    body that raised nothing is written. *)
Definition scope_exit {A} (closer : string)
    (body_result scope_result : outcome A * world) : Prop :=
  match body_result with
  | (Raise e, w2) => scope_result = (Raise e, w2)
  | (o, w2) =>
      if out (self w2) then scope_result = (o, emit closer w2)
      else scope_result = (Raise WriterClosedError, w2)
  end.

(** Replacing the closure cells. *)
Definition set_cells (cs : list bool) (w : world) : world :=
  mkWorld (self w) (sink w) (sink_closes w) cs.
Arguments set_cells cs !w /.

(** ** The output format, as pure renderers

    The byte layout of section 6 of the specification: what each
    structure looks like in the output, independently of the writer. *)

Definition ref_bytes (id : Z) : string := pretty id +:+ " 0 R".

Fixpoint elems_bytes (first : bool) (elems : list string) : string :=
  match elems with
  | [] => ""
  | e :: rest => (if first then "" else " ") +:+ e +:+ elems_bytes false rest
  end.

Definition array_bytes (elems : list string) : string :=
  "[" +:+ elems_bytes true elems +:+ "]".

Definition entry_bytes (key value : string) : string :=
  "/" +:+ key +:+ " " +:+ value +:+ nl.

Definition dict_bytes (entries : string) : string :=
  "<<" +:+ nl +:+ entries +:+ ">>" +:+ nl.

Definition stream_bytes (data : string) : string :=
  "stream" +:+ nl +:+ data +:+ nl +:+ "endstream" +:+ nl.

Definition object_header (id : Z) : string := pretty id +:+ " 0 obj" +:+ nl.

Definition object_bytes (id : Z) (body : string) : string :=
  object_header id +:+ body +:+ "endobj" +:+ nl.

Definition page_tree_bytes (id : Z) (kids : list Z) : string :=
  object_bytes id (dict_bytes (
    entry_bytes "Type" "/Pages" +:+
    entry_bytes "Kids" (array_bytes (map ref_bytes kids)) +:+
    entry_bytes "Count" (pretty (Z.of_nat (length kids))))).

Definition catalog_bytes (id page_tree_root_id : Z) : string :=
  object_bytes id (dict_bytes (
    entry_bytes "Type" "/Catalog" +:+
    entry_bytes "Pages" (ref_bytes page_tree_root_id))).

Definition xref_entry_bytes (id : Z) (offset : nat) (gen : N) (in_use : bool) : string :=
  pretty id +:+ " 1" +:+ nl +:+
  format_0d 10 (N.of_nat offset) +:+ " " +:+ format_0d 5 gen +:+ " " +:+
  (if in_use then "n" else "f") +:+ " " +:+ nl.

Fixpoint xref_entries_bytes (items : list (Z * nat)) : string :=
  match items with
  | [] => ""
  | (id, offset) :: rest =>
      xref_entry_bytes id offset 0 true +:+ xref_entries_bytes rest
  end.

Definition xref_bytes (xrefs : gmap Z nat) : string :=
  "xref" +:+ nl +:+ xref_entry_bytes 0 0 65535 false +:+
  xref_entries_bytes (sorted_items xrefs).

Definition trailer_bytes (size catalog_id : Z) : string :=
  "trailer" +:+ nl +:+ "<<" +:+ nl +:+
  "/Size " +:+ pretty size +:+ nl +:+
  "/Root " +:+ pretty catalog_id +:+ " 0 R" +:+ nl +:+
  ">>" +:+ nl.

Definition startxref_bytes (xref_pos : nat) : string :=
  "startxref" +:+ nl +:+ pretty (Z.of_nat xref_pos) +:+ nl.

Definition image_dict_bytes (width height : Z)
    (color_space filter : string) (length : nat) : string :=
  dict_bytes (
    entry_bytes "Type" "/XObject" +:+
    entry_bytes "Subtype" "/Image" +:+
    entry_bytes "Width" (pretty width) +:+
    entry_bytes "Height" (pretty height) +:+
    entry_bytes "ColorSpace" color_space +:+
    entry_bytes "BitsPerComponent" "8" +:+
    entry_bytes "Length" (pretty (Z.of_nat length)) +:+
    entry_bytes "Filter" filter).

Definition image_body_bytes (width height : Z)
    (color_space filter data : string) : string :=
  image_dict_bytes width height color_space filter (String.length data) +:+
  stream_bytes data.

Definition image_object_bytes (id width height : Z)
    (color_space filter data : string) : string :=
  object_bytes id (image_body_bytes width height color_space filter data).

Definition content_body_bytes (data : string) : string :=
  dict_bytes (entry_bytes "Length" (pretty (Z.of_nat (String.length data)))) +:+
  stream_bytes data.

Definition content_object_bytes (id : Z) (data : string) : string :=
  object_bytes id (content_body_bytes data).

Definition page_bytes (id parent_id : Z) (resources : option string)
    (media_box : option (string * string * string * string))
    (contents_id : option contents_ids) : string :=
  object_bytes id (dict_bytes (
    entry_bytes "Type" "/Page" +:+
    entry_bytes "Parent" (ref_bytes parent_id) +:+
    match resources with
    | Some r => entry_bytes "Resources" r
    | None => ""
    end +:+
    match media_box with
    | Some (ll_x, ll_y, ur_x, ur_y) =>
        entry_bytes "MediaBox" (array_bytes [ll_x; ll_y; ur_x; ur_y])
    | None => ""
    end +:+
    match contents_id with
    | Some (OneId c) => entry_bytes "Contents" (ref_bytes c)
    | Some (ManyIds ids) =>
        entry_bytes "Contents" (array_bytes (map ref_bytes ids))
    | None => ""
    end)).

(** ** What [close] does to an open writer *)

(** The id under which [close] writes the page tree: the reserved root
    id, or else the next id of the allocator. *)
Definition page_tree_id (w : world) : Z :=
  default (_id_stream (self w)) (_page_tree_root_id (self w)).

(** The id of the catalog: the next id after that. *)
Definition catalog_id (w : world) : Z :=
  match _page_tree_root_id (self w) with
  | Some _ => _id_stream (self w)
  | None => _id_stream (self w) + 1
  end.

(** Offsets of the page tree, of the catalog and of the xref section. *)
Definition page_tree_pos (w : world) : nat := _pos (self (after_header w)).
Definition catalog_pos (w : world) : nat :=
  page_tree_pos w +
  String.length (page_tree_bytes (page_tree_id w) (_page_ids (self w))).
Definition xref_pos (w : world) : nat :=
  catalog_pos w + String.length (catalog_bytes (catalog_id w) (page_tree_id w)).

(** The cross-reference map when the table is written. *)
Definition closing_xrefs (w : world) : gmap Z nat :=
  <[catalog_id w := catalog_pos w]>
    (<[page_tree_id w := page_tree_pos w]> (_xrefs (self w))).

(** The bytes that [close] appends. *)
Definition close_bytes (w : world) : string :=
  header_bytes w +:+
  page_tree_bytes (page_tree_id w) (_page_ids (self w)) +:+
  catalog_bytes (catalog_id w) (page_tree_id w) +:+
  xref_bytes (closing_xrefs w) +:+
  trailer_bytes (Z.of_nat (size (closing_xrefs w)) + 1) (catalog_id w) +:+
  startxref_bytes (xref_pos w) +:+
  "%%EOF".

(** ** What [write_page] does on an open writer *)

(** The parent a page refers to: the given one, or else the tree root,
    reserved on the spot when there is none yet. *)
Definition page_parent_id (w : world) (parent_id : option Z) : Z :=
  match parent_id with
  | Some p => p
  | None =>
      if truthy (_page_tree_root_id (self w))
      then default 0 (_page_tree_root_id (self w))
      else _id_stream (self w)
  end.

(** The allocator after the parent was determined. *)
Definition page_id_stream (w : world) (parent_id : option Z) : Z :=
  match parent_id with
  | Some _ => _id_stream (self w)
  | None =>
      if truthy (_page_tree_root_id (self w))
      then _id_stream (self w)
      else _id_stream (self w) + 1
  end.

(** The id of the page object: the given one, or else the next id. *)
Definition page_object_id (w : world) (id parent_id : option Z) : Z :=
  default (page_id_stream w parent_id) id.

(** The value [write_page] returns for a page with id [page]. *)
Definition page_return (page : Z) (contents_id : option contents_ids) : Z :=
  match contents_id with
  | Some (ManyIds ids) => List.last ids page
  | _ => page
  end.

(** The optional arguments of [write_page] and their ASCII encodings. *)
Definition encoded (v : option pyval) (bs : option string) : Prop :=
  match v, bs with
  | Some v, Some b => as_ascii v = inr b
  | None, None => True
  | _, _ => False
  end.

Definition encoded_box (box : option (pyval * pyval * pyval * pyval))
    (bs : option (string * string * string * string)) : Prop :=
  match box, bs with
  | Some (a, b, c, d), Some (a', b', c', d') =>
      as_ascii a = inr a' /\ as_ascii b = inr b' /\
      as_ascii c = inr c' /\ as_ascii d = inr d'
  | None, None => True
  | _, _ => False
  end.

(** ** Invariants of the writer *)

(** Updating the fields of [self]. *)
Definition update (f : PdfWriter -> PdfWriter) (w : world) : world :=
  mkWorld (f (self w)) (sink w) (sink_closes w) (cells w).
Arguments update f !w /.

(** [m] keeps the invariant [I] along every path on which it does not
    raise. *)
Definition keeps {A} (I : world -> Prop) (m : M A) : Prop :=
  forall w, I w ->
    match m w with
    | (Raise _, _) => True
    | (_, w') => I w'
    end.

(** The programs a caller can build from the writer's operations:
    sequencing, raising and returning, and the scopes with bodies that
    are such programs again. *)
Inductive caller_code (Image_open : string -> exn + Image) :
    forall A : Type, M A -> Prop :=
| cc_ret A (a : A) : caller_code Image_open A (ret a)
| cc_bind A B (m : M A) (k : A -> M B) :
    caller_code Image_open A m ->
    (forall a, caller_code Image_open B (k a)) ->
    caller_code Image_open B (bind m k)
| cc_throw A e : caller_code Image_open A (throw e)
| cc_return A : caller_code Image_open A return_
| cc_next_object_id : caller_code Image_open Z next_object_id
| cc_write v : caller_code Image_open unit (_write v)
| cc_write_ref id : caller_code Image_open unit (_write_ref id)
| cc_start_array A (body : nat -> M A) :
    (forall first, caller_code Image_open A (body first)) ->
    caller_code Image_open A (start_array body)
| cc_start_array_element A first (body : M A) :
    caller_code Image_open A body ->
    caller_code Image_open A (start_array_element first body)
| cc_start_dict A (body : M A) :
    caller_code Image_open A body ->
    caller_code Image_open A (start_dict body)
| cc_start_dict_entry A key (body : M A) :
    caller_code Image_open A body ->
    caller_code Image_open A (start_dict_entry key body)
| cc_start_object A id (body : Z -> M A) :
    (forall id', caller_code Image_open A (body id')) ->
    caller_code Image_open A (start_object id body)
| cc_start_stream A (body : M A) :
    caller_code Image_open A body ->
    caller_code Image_open A (start_stream body)
| cc_write_page id contents_id media_box parent_id resources :
    caller_code Image_open Z
      (write_page id contents_id media_box parent_id resources)
| cc_write_image_page id contents contents_id image_id media_box parent_id :
    caller_code Image_open Z
      (write_image_page Image_open id contents contents_id image_id
         media_box parent_id)
| cc_close : caller_code Image_open unit close
| cc_enter : caller_code Image_open unit __enter__
| cc_with_writer A body :
    caller_code Image_open A body ->
    caller_code Image_open A (with_writer body).

(** The cross-reference invariant: the writer's position is the number of
    bytes written, and every recorded offset is the position of the
    header of its object. *)
Definition xref_inv (w : world) : Prop :=
  _pos (self w) = String.length (sink w) /\
  forall id offset, _xrefs (self w) !! id = Some offset ->
    exists before after,
      sink w = before +:+ object_header id +:+ after /\
      String.length before = offset.

(** A writer that was created over a sink: it still has the sink, or it
    has written to it. *)
Definition established (w : world) : Prop :=
  out (self w) = true \/ _pos (self w) <> 0%nat.

(** The state after a complete object with the given body was written:
    the id is allocated if none was given, the offset is recorded, the
    bytes are appended. *)
Definition object_written (id : option Z) (body : string) (w : world) : world :=
  let id' := default (_id_stream (self w)) id in
  emit (object_bytes id' body)
    (update (fun p =>
       set_xrefs (<[id' := _pos p]> (_xrefs p))
         (set_id_stream
            match id with
            | Some _ => _id_stream p
            | None => _id_stream p + 1
            end p)) w).

(** The sink has only grown since it held [s0]. *)
Definition extends (s0 : string) (w : world) : Prop :=
  exists rest, sink w = s0 +:+ rest.

(** ** Scenarios *)

(** A call that writes a page under a given parent. *)
Inductive page_call : Type :=
| WritePage (id : option Z) (contents_id : option contents_ids)
    (media_box : option (pyval * pyval * pyval * pyval))
    (resources : option pyval)
| WriteImagePage (id : option Z) (contents : string)
    (contents_id image_id : option Z)
    (media_box : option (pyval * pyval * pyval * pyval)).

Definition do_call (Image_open : string -> exn + Image) (parent_id : Z)
    (c : page_call) : M Z :=
  match c with
  | WritePage id contents_id media_box resources =>
      write_page id contents_id media_box (Some parent_id) resources
  | WriteImagePage id contents contents_id image_id media_box =>
      write_image_page Image_open id contents contents_id image_id media_box
        (Some parent_id)
  end.

(** The calls of a list, in order, all under the same parent. *)
Fixpoint do_calls (Image_open : string -> exn + Image) (parent_id : Z)
    (cs : list page_call) : M unit :=
  match cs with
  | [] => ret tt
  | c :: cs' => do_call Image_open parent_id c ;; do_calls Image_open parent_id cs'
  end.

(** The writer is open, has no tree root, and has issued the id [r]. *)
Definition reserved (r : Z) (w : world) : Prop :=
  out (self w) = true /\
  _page_tree_root_id (self w) = None /\
  r < _id_stream (self w).

(** The ids in use: those the allocator has issued, and those a caller
    chose for an object it started. *)
Definition allocated_ids (w : world) : gset Z :=
  list_to_set (seqZ 1 (_id_stream (self w) - 1)) ∪ dom (_xrefs (self w)).

(** ** Vocabulary of the further properties *)

(** [m] keeps the invariant [I] on every path, also when it raises. *)
Definition always {A} (I : world -> Prop) (m : M A) : Prop :=
  forall w, I w -> I (snd (m w)).

(** The position counter is the number of bytes the sink has received. *)
Definition position_counted (w : world) : Prop :=
  _pos (self w) = String.length (sink w).

(** A text of one character outside ASCII. *)
Definition e_acute : string := String (ascii_of_nat 233) EmptyString.


(** The tree root is reserved: it is the id [r], which is not 0 (an id
    of 0 would count as none in [write_page]). *)
Definition tree_root (r : Z) (w : world) : Prop :=
  _page_tree_root_id (self w) = Some r /\ r <> 0.

(** The calls with which a caller can begin a document: entering the
    writer, a scope, a page, or [close]. Inside the scopes the caller's
    program is arbitrary. *)
Inductive opening_call (Image_open : string -> exn + Image) :
    forall A : Type, M A -> Prop :=
| oc_enter : opening_call Image_open unit __enter__
| oc_close : opening_call Image_open unit close
| oc_with_writer A body :
    caller_code Image_open A body ->
    opening_call Image_open A (with_writer body)
| oc_start_array A (body : nat -> M A) :
    (forall first, caller_code Image_open A (body first)) ->
    opening_call Image_open A (start_array body)
| oc_start_dict A (body : M A) :
    caller_code Image_open A body ->
    opening_call Image_open A (start_dict body)
| oc_start_object A id (body : Z -> M A) :
    (forall id', caller_code Image_open A (body id')) ->
    opening_call Image_open A (start_object id body)
| oc_start_stream A (body : M A) :
    caller_code Image_open A body ->
    opening_call Image_open A (start_stream body)
| oc_write_page id contents_id media_box parent_id resources :
    opening_call Image_open Z
      (write_page id contents_id media_box parent_id resources)
| oc_write_image_page id contents contents_id image_id media_box parent_id :
    opening_call Image_open Z
      (write_image_page Image_open id contents contents_id image_id
         media_box parent_id).

(** A closed writer whose sink, sink closes and position are those of
    [w0]. *)
Definition frozen_at (w0 : world) (w : world) : Prop :=
  out (self w) = false /\ sink w = sink w0 /\
  sink_closes w = sink_closes w0 /\ _pos (self w) = _pos (self w0).

(** The sink of a writer that owns it iff [o], and that found it closed
    [n] times, has been closed once more exactly when the writer is
    closed and owns it. *)
Definition closes_as_owned (o : bool) (n : nat) (w : world) : Prop :=
  owned (self w) = o /\
  sink_closes w = if out (self w) then n else if o then S n else n.

(** The allocator after [write_image_page] has written the image and the
    content stream: each of the two takes the next id unless it was
    given one. *)
Definition image_page_id_stream (w : world) (image_id contents_id : option Z) : Z :=
  _id_stream (self w)
  + match image_id with Some _ => 0 | None => 1 end
  + match contents_id with Some _ => 0 | None => 1 end.

(** The ids of the image, of the content stream, of the parent and of
    the page object of an image page. *)
Definition image_object_id (w : world) (image_id : option Z) : Z :=
  default (_id_stream (self w)) image_id.
Definition content_object_id (w : world) (image_id contents_id : option Z) : Z :=
  default (_id_stream (self w) + match image_id with Some _ => 0 | None => 1 end)
    contents_id.
Definition image_page_parent_id (w : world) (image_id contents_id parent_id : option Z) : Z :=
  page_parent_id
    (update (set_id_stream (image_page_id_stream w image_id contents_id)) w)
    parent_id.
Definition image_page_object_id (w : world)
    (id image_id contents_id parent_id : option Z) : Z :=
  page_object_id
    (update (set_id_stream (image_page_id_stream w image_id contents_id)) w)
    id parent_id.

(** The [/Resources] entry of an image page. *)
Definition image_resources (image_id : Z) : string :=
  "<< /XObject << /Img " +:+ pretty image_id +:+ " 0 R >> >>".

(** The fixed-width line of a cross-reference entry. *)
Definition xref_line (offset : nat) (gen : N) (in_use : bool) : string :=
  format_0d 10 (N.of_nat offset) +:+ " " +:+ format_0d 5 gen +:+ " " +:+
  (if in_use then "n" else "f") +:+ " " +:+ nl.

(** The order of the entries of the cross-reference table. *)
Definition xref_lt (x y : Z * nat) : Prop := x.1 < y.1.

(** The entries of a dictionary, one after the other. *)
Fixpoint entries_bytes (entries : list (string * string)) : string :=
  match entries with
  | [] => ""
  | (key, value) :: rest => entry_bytes key value +:+ entries_bytes rest
  end.

(** Every page of the page list has been started as an object. *)
Definition pages_started (w : world) : Prop :=
  forall id, id ∈ _page_ids (self w) -> is_Some (_xrefs (self w) !! id).

(** * Properties *)

(** ** Strings *)

Lemma str_app_assoc (a b c : string) : (a +:+ b) +:+ c = a +:+ b +:+ c.
Proof. induction a as [|x a IH]; cbn; [reflexivity | now rewrite IH]. Qed.

Lemma str_app_nil_r (a : string) : a +:+ "" = a.
Proof. induction a as [|x a IH]; cbn; [reflexivity | now rewrite IH]. Qed.

Lemma str_length_app (a b : string) :
  String.length (a +:+ b) = (String.length a + String.length b)%nat.
Proof. induction a as [|x a IH]; cbn; [reflexivity | now rewrite IH]. Qed.

(** ** The primitive write *)

Lemma _write_closed w v :
  out (self w) = false -> _write v w = (Raise WriterClosedError, w).
Proof.
  intros H. unfold _write, bind, gets. rewrite H. reflexivity.
Qed.

Lemma _write_open w v bs :
  out (self w) = true -> as_ascii v = inr bs -> _write v w = (Ok tt, emit bs w).
Proof.
  intros H E. unfold _write, bind, gets. rewrite H, E. destruct w as [p s c l].
  reflexivity.
Qed.

Lemma _write_header_open w :
  out (self w) = true -> _write_header w = (Ok tt, after_header w).
Proof.
  intros H. unfold _write_header, after_header, bind, gets.
  destruct (_pos (self w) =? 0)%nat; [|reflexivity].
  now apply _write_open.
Qed.

Lemma with__enter {X A} (enter : M X) exit (body : X -> M A) w x w1 :
  enter w = (Ok x, w1) ->
  with_ enter exit body w =
    match body x w1 with
    | (Ok a, w2) =>
        match exit w2 with
        | (Ok _, w3) => (Ok a, w3)
        | (Return_, w3) => (Return_, w3)
        | (Raise e, w3) => (Raise e, w3)
        end
    | (Return_, w2) =>
        match exit w2 with
        | (Raise e, w3) => (Raise e, w3)
        | (_, w3) => (Return_, w3)
        end
    | (Raise e, w2) => (Raise e, w2)
    end.
Proof. intros E. unfold with_. now rewrite E. Qed.

Lemma with__enter_raises {X A} (enter : M X) exit (body : X -> M A) w e w1 :
  enter w = (Raise e, w1) -> with_ enter exit body w = (Raise e, w1).
Proof. intros E. unfold with_. now rewrite E. Qed.

Ltac destruct_world w :=
  let p := fresh "p" in
  destruct w as [p ? ? ?]; destruct p; cbn in *.

(** The same, leaving the goal as it is. *)
Ltac open_world w :=
  let p := fresh "p" in
  destruct w as [p ? ? ?]; destruct p; cbn in * |-; subst.

(** ** Writes after close *)

Lemma start_object_enter_closed id w :
  out (self w) = false ->
  exists w', start_object_enter id w = (Raise WriterClosedError, w') /\
    sink w' = sink w /\
    (_pos (self w) <> 0%nat ->
     _xrefs (self w') =
       <[default (_id_stream (self w)) id := _pos (self w)]> (_xrefs (self w))).
Proof.
  intros H. destruct_world w. subst.
  destruct _pos0; [cbn; eexists; repeat split; try reflexivity; congruence |].
  destruct id; cbn; eexists; repeat split; reflexivity.
Qed.

Lemma start_object_closed {A} id (body : Z -> M A) w :
  out (self w) = false ->
  exists w', start_object id body w = (Raise WriterClosedError, w') /\
    sink w' = sink w /\
    (_pos (self w) <> 0%nat ->
     _xrefs (self w') =
       <[default (_id_stream (self w)) id := _pos (self w)]> (_xrefs (self w))).
Proof.
  intros H. destruct (start_object_enter_closed id w H) as (w' & E & Hs).
  exists w'. split; [|exact Hs].
  change (start_object id body) with
    (with_ (start_object_enter id) (_write (Bytes ("endobj" +:+ nl))) body).
  now apply with__enter_raises.
Qed.

Lemma write_page_closed id cid mb pid res w :
  out (self w) = false ->
  exists w', write_page id cid mb pid res w = (Raise WriterClosedError, w') /\
    sink w' = sink w.
Proof.
  intros H. destruct_world w. subst.
  destruct _pos0; [cbn; eexists; split; reflexivity |].
  destruct pid as [pid|]; [| destruct (truthy _page_tree_root_id0) eqn:T];
    destruct id; unfold write_page; cbn; rewrite ?T; cbn;
    eexists; split; reflexivity.
Qed.

Lemma write_image_page_closed dec id c cid iid mb pid w :
  out (self w) = false ->
  exists e w', write_image_page dec id c cid iid mb pid w = (Raise e, w') /\
    sink w' = sink w /\ (recognized dec c -> e = WriterClosedError).
Proof.
  intros H. destruct_world w. subst. unfold write_image_page.
  destruct _pos0; [cbn; eexists _, _; repeat split; reflexivity |].
  cbn. destruct (dec c) as [e|img] eqn:D; cbn.
  { eexists _, _. repeat split. intros (? & ? & ? & ? & _). congruence. }
  destruct (img_size img) as [wd ht]. unfold getitem.
  destruct (MODE2COLOR_SPACE !! img_mode img) eqn:Hm; cbn.
  2:{ eexists _, _. repeat split. intros (? & ? & ? & ? & ? & _). congruence. }
  destruct (FORMAT2FILTER !! img_format img) eqn:Hf; cbn.
  2:{ eexists _, _. repeat split. intros (? & ? & ? & ? & ? & ?). congruence. }
  destruct iid; cbn; eexists _, _; repeat split; reflexivity.
Qed.

Lemma write_image_page_closed_error dec id c cid iid mb pid w :
  out (self w) = false ->
  exists e w', write_image_page dec id c cid iid mb pid w = (Raise e, w') /\
    sink w' = sink w /\
    (recognized dec c -> e = WriterClosedError) /\
    (_pos (self w) = 0%nat -> e = WriterClosedError) /\
    (_pos (self w) <> 0%nat ->
     e = match dec c with
         | inl d => d
         | inr img =>
             match MODE2COLOR_SPACE !! img_mode img with
             | None => KeyError (img_mode img)
             | Some _ =>
                 match FORMAT2FILTER !! img_format img with
                 | None => KeyError (img_format img)
                 | Some _ => WriterClosedError
                 end
             end
         end).
Proof.
  intros H. destruct w as [[o ow ids ps root pos x] s k cs].
  cbn in *. subst o. unfold write_image_page.
  destruct pos as [|n];
    [cbn; eexists _, _; repeat split; try reflexivity; intros N; now destruct N |].
  cbn. destruct (dec c) as [e|img] eqn:D; cbn.
  { eexists _, _. repeat split; try discriminate.
    intros (? & ? & ? & ? & _). congruence. }
  destruct (img_size img) as [wd ht]. unfold getitem.
  destruct (MODE2COLOR_SPACE !! img_mode img) eqn:Hm; cbn.
  2:{ eexists _, _. repeat split; try discriminate.
      intros (? & ? & ? & ? & ? & _). congruence. }
  destruct (FORMAT2FILTER !! img_format img) eqn:Hf; cbn.
  2:{ eexists _, _. repeat split; try discriminate.
      intros (? & ? & ? & ? & ? & ?). congruence. }
  destruct iid; cbn; eexists _, _; repeat split; reflexivity.
Qed.

Lemma start_dict_closed {A} (body : M A) w :
  out (self w) = false ->
  exists w', start_dict body w = (Raise WriterClosedError, w') /\ sink w' = sink w.
Proof.
  intros H. destruct_world w. subst.
  destruct _pos0; cbn; eexists; split; reflexivity.
Qed.

Lemma start_array_closed {A} (body : nat -> M A) w :
  out (self w) = false ->
  exists w', start_array body w = (Raise WriterClosedError, w') /\ sink w' = sink w.
Proof.
  intros H. destruct_world w. subst.
  destruct _pos0; cbn; eexists; split; reflexivity.
Qed.

Lemma start_stream_closed {A} (body : M A) w :
  out (self w) = false ->
  exists w', start_stream body w = (Raise WriterClosedError, w') /\ sink w' = sink w.
Proof.
  intros H. destruct_world w. subst.
  destruct _pos0; cbn; eexists; split; reflexivity.
Qed.

(** ** Unsupported images *)

(** C4. On a writer that has a sink or has already written its header
    (every writer created over a sink, before and after close: see
    [caller_code_established]), an image
    whose mode or format is outside the tables makes [write_image_page]
    fail with [UnsupportedImageFormatError] (the [KeyError] of the failed
    lookup): no object is started, no page is recorded, and at most the
    document header reaches the sink. *)
Theorem write_image_page_unsupported (Image_open : string -> exn + Image)
    (w : world) id contents cid iid mb pid img :
  established w ->
  Image_open contents = inr img ->
  MODE2COLOR_SPACE !! img_mode img = None \/
  FORMAT2FILTER !! img_format img = None ->
  exists key w',
    write_image_page Image_open id contents cid iid mb pid w
      = (Raise (UnsupportedImageFormatError key), w') /\
    (key = img_mode img \/ key = img_format img) /\
    sink w' = sink w +:+ header_bytes w /\
    _xrefs (self w') = _xrefs (self w) /\
    _page_ids (self w') = _page_ids (self w) /\
    _id_stream (self w') = _id_stream (self w).
Proof.
  intros Hw D Hk. unfold established in Hw. destruct_world w.
  unfold write_image_page, header_bytes.
  destruct out0, _pos0; cbn; try (destruct Hw; congruence);
    rewrite D; cbn; destruct (img_size img) as [wd ht]; unfold getitem;
    (destruct (MODE2COLOR_SPACE !! img_mode img) eqn:Hm; cbn;
     [ destruct (FORMAT2FILTER !! img_format img) eqn:Hf; cbn;
       [ destruct Hk; congruence |] |]);
    eexists _, _; rewrite ?str_app_nil_r; repeat split; auto.
Qed.

Lemma write_image_page_unsupported_witness :
  exists key w',
    write_image_page sample_decoder None "P" None None None None new_writer
      = (Raise (UnsupportedImageFormatError key), w') /\
    (key = "RGB" \/ key = "PNG") /\
    sink w' = "" +:+ header_bytes new_writer /\
    _xrefs (self w') = ∅ /\
    _page_ids (self w') = [] /\
    _id_stream (self w') = 1.
Proof.
  apply (write_image_page_unsupported sample_decoder new_writer None "P" None None None None
           (mkImage (4, 4) "RGB" "PNG")).
  - left. reflexivity.
  - reflexivity.
  - right. vm_compute. reflexivity.
Defined.

(** ** Closing twice *)

Lemma bind_Ok_inv {A B} (m : M A) (k : A -> M B) w b w' :
  bind m k w = (Ok b, w') ->
  exists a w1, m w = (Ok a, w1) /\ k a w1 = (Ok b, w').
Proof.
  unfold bind. destruct (m w) as [[a| |e] w1]; intros E; try discriminate. eauto.
Qed.

Lemma close_closed w : out (self w) = false -> close w = (Ok tt, w).
Proof. intros H. unfold close. cbn. rewrite H. reflexivity. Qed.

Lemma close_Ok_closed w w1 : close w = (Ok tt, w1) -> out (self w1) = false.
Proof.
  intros H. destruct (out (self w)) eqn:O.
  - unfold close in H. apply bind_Ok_inv in H as (o & w0 & H0 & H).
    cbn in H0. injection H0 as <- <-. rewrite O in H. cbv beta iota delta [negb] in H.
    repeat (apply bind_Ok_inv in H as (? & ? & _ & H); cbv beta in H).
    cbn in H. injection H as <-. reflexivity.
  - rewrite (close_closed w O) in H. injection H as <-. exact O.
Qed.

(** C9. [close] on a writer that a previous [close] has closed returns
    at once and leaves everything as it is: the sink's bytes, the number of
    times the sink was closed, and the writer's own fields. *)
Theorem close_idempotent (w w1 : world) :
  close w = (Ok tt, w1) -> close w1 = (Ok tt, w1).
Proof. intros H. apply close_closed. exact (close_Ok_closed w w1 H). Qed.

Lemma close_idempotent_witness :
  close new_writer = (Ok tt, closed_sample) /\
  close closed_sample = (Ok tt, closed_sample) /\
  sink_closes closed_sample = 1%nat.
Proof.
  assert (E : close new_writer = (Ok tt, closed_sample)) by (vm_compute; reflexivity).
  split; [exact E |]. split; [exact (close_idempotent new_writer closed_sample E) | reflexivity].
Defined.

(** ** What [write_page] returns *)

(** C2 (defect in the code). With a sequence of content-stream ids the
    loop [for id in contents_id] rebinds the local [id], so [write_page]
    returns the last content-stream id instead of the page's id. On a new
    writer, [write_page(contents_id=[7, 8])] emits the page as object 2
    and records 2 in the page list, but returns 8. *)
Example write_page_returns_last_contents_id :
  let r := write_page None (Some (ManyIds [7; 8])) None None None new_writer in
  fst r = Ok 8 /\
  _page_ids (self (snd r)) = [2] /\
  _xrefs (self (snd r)) !! 2 = Some 9%nat /\
  sink (snd r) = "%PDF-1.7
2 0 obj
<<
/Type /Page
/Parent 1 0 R
/Contents [7 0 R 8 0 R]
>>
endobj
".
Proof. vm_compute. repeat split; reflexivity. Qed.

(** ** Scopes and their closing tokens *)

Lemma with__scope_exit {X A} (enter : M X) closer (body : X -> M A) w x w1 :
  enter w = (Ok x, w1) ->
  scope_exit closer (body x w1) (with_ enter (_write (Bytes closer)) body w).
Proof.
  intros E. rewrite (with__enter _ _ _ _ _ _ E). unfold scope_exit.
  destruct (body x w1) as [[a| |e] w2]; [| |reflexivity];
    destruct (out (self w2)) eqn:O;
    first [ rewrite (_write_open w2 (Bytes closer) closer O eq_refl)
          | rewrite (_write_closed w2 (Bytes closer) O) ]; reflexivity.
Qed.

(** C5 (as amended). On an open writer each structural scope writes its
    opening token (after the document header, if that was still due) and
    runs the body; the closing token is written when the body completes
    normally or leaves by an early return; when the body raises, the
    error propagates and no closing token is written. *)
Theorem scope_closing_token (w : world) :
  out (self w) = true ->
  (forall A (body : nat -> M A), exists first w1,
      sink w1 = sink w +:+ header_bytes w +:+ "[" /\
      scope_exit "]" (body first w1) (start_array body w)) /\
  (forall A (body : M A), exists w1,
      sink w1 = sink w +:+ header_bytes w +:+ "<<" +:+ nl /\
      scope_exit (">>" +:+ nl) (body w1) (start_dict body w)) /\
  (forall A id (body : Z -> M A), exists id' w1,
      sink w1 = sink w +:+ header_bytes w +:+ pretty id' +:+ " 0 obj" +:+ nl /\
      scope_exit ("endobj" +:+ nl) (body id' w1) (start_object id body w)) /\
  (forall A (body : M A), exists w1,
      sink w1 = sink w +:+ header_bytes w +:+ "stream" +:+ nl /\
      scope_exit (nl +:+ "endstream" +:+ nl) (body w1) (start_stream body w)).
Proof.
  intros H. destruct_world w. subst. unfold header_bytes.
  destruct _pos0; (repeat split; intros;
    [ unfold start_array; eexists _, _; split;
      [| apply with__scope_exit; cbn; reflexivity ]
    | unfold start_dict; eexists; split;
      [| apply (with__scope_exit _ _ (fun _ => body) _ tt); cbn; reflexivity ]
    | unfold start_object; destruct id; eexists _, _; split;
      [| apply with__scope_exit; cbn; reflexivity
       | | apply with__scope_exit; cbn; reflexivity ]
    | unfold start_stream; eexists; split;
      [| apply (with__scope_exit _ _ (fun _ => body) _ tt); cbn; reflexivity ] ]);
    cbn; rewrite ?str_app_assoc; reflexivity.
Qed.

Lemma scope_closing_token_witness :
  exists (first : nat) (w1 : world),
    sink w1 = sink new_writer +:+ header_bytes new_writer +:+ "[" /\
    scope_exit "]" (_write (Int 5) w1)
      (start_array (fun _ => _write (Int 5)) new_writer).
Proof.
  apply (proj1 (scope_closing_token new_writer eq_refl)).
Defined.

(** C5 (as stated) fails: a body that raises leaves the array open; the
    sink ends with the opening bracket. *)
Lemma start_array_body_raises_no_closer :
  let r := start_array (A := unit) (fun _ => throw (ExternalError "ValueError"))
             new_writer in
  fst r = Raise (ExternalError "ValueError") /\
  sink (snd r) = "%PDF-1.7
[".
Proof. vm_compute. split; reflexivity. Qed.

(** The writer's own [with] block is different: [__exit__] closes the
    document also after a block that raised. *)
Example with_writer_body_raises_closes :
  let r := with_writer (A := unit) (throw (ExternalError "ValueError"))
             new_writer in
  fst r = Raise (ExternalError "ValueError") /\
  out (self (snd r)) = false /\
  sink_closes (snd r) = 1%nat /\
  sink (snd r) = sink closed_sample.
Proof. vm_compute. repeat split; reflexivity. Qed.

(** Equality of two states that differ in how their byte strings and
    offsets are bracketed. *)
Ltac solve_pos :=
  unfold nl;
  repeat first [rewrite str_length_app | progress cbn [String.length]];
  lia.
Ltac solve_str :=
  repeat first [rewrite str_app_assoc | rewrite str_app_nil_r
               | progress cbn [String.append]];
  reflexivity.
Ltac world_eq :=
  match goal with
  | |- (_, _) = (_, _) => f_equal; world_eq
  | |- mkWorld _ _ _ _ = mkWorld _ _ _ _ => f_equal; world_eq
  | |- mkPdfWriter _ _ _ _ _ _ _ = mkPdfWriter _ _ _ _ _ _ _ => f_equal; world_eq
  | |- @eq nat _ _ => solve_pos
  | |- @eq string _ _ => solve_str
  | |- @eq (gmap Z nat) (<[_ := _]> _) (<[_ := _]> _) => f_equal; world_eq
  | |- _ => reflexivity
  | |- _ => idtac
  end.

(** ** Loops *)

Lemma last_cons {X} (x : X) xs x0 : List.last (x :: xs) x0 = List.last xs x.
Proof.
  revert x x0. induction xs as [|y ys IH]; intros x x0; [reflexivity |].
  change (List.last (x :: y :: ys) x0) with (List.last (y :: ys) x0).
  now rewrite !IH.
Qed.

Lemma for__nil {X} (x0 : X) body : for_ [] x0 body = ret x0.
Proof. reflexivity. Qed.

Lemma for__cons {X} (x : X) xs x0 body :
  for_ (x :: xs) x0 body = (body x ;; for_ xs x body).
Proof. reflexivity. Qed.

Lemma for_each_nil {X} (body : X -> M unit) : for_each [] body = ret tt.
Proof. reflexivity. Qed.

Lemma for_each_cons {X} (x : X) xs body :
  for_each (x :: xs) body = (body x ;; for_each xs body).
Proof. reflexivity. Qed.

Lemma for__for_each {X} (xs : list X) x0 body w :
  for_ xs x0 body w =
    match for_each xs body w with
    | (Ok _, w') => (Ok (List.last xs x0), w')
    | (Return_, w') => (Return_, w')
    | (Raise e, w') => (Raise e, w')
    end.
Proof.
  revert x0 w. induction xs as [|x xs IH]; intros x0 w; [reflexivity |].
  rewrite last_cons, for__cons, for_each_cons. unfold bind.
  destruct (body x w) as [[[]| |e] w1]; [apply IH | reflexivity | reflexivity].
Qed.

Lemma emit_nil w : emit "" w = w.
Proof.
  destruct_world w. rewrite str_app_nil_r, Nat.add_0_r. reflexivity.
Qed.

Lemma emit_emit a b w : emit b (emit a w) = emit (a +:+ b) w.
Proof.
  destruct_world w. rewrite str_app_assoc, str_length_app, Nat.add_assoc. reflexivity.
Qed.

Lemma xref_entries_loop items w :
  out (self w) = true ->
  for_each items (fun '(id, offset) => write_entry id offset 0 true) w
    = (Ok tt, emit (xref_entries_bytes items) w).
Proof.
  revert w. induction items as [|[id off] items IH]; intros w H.
  - rewrite for_each_nil. cbn. now rewrite emit_nil.
  - rewrite for_each_cons. cbn [xref_entries_bytes]. unfold bind at 1.
    assert (E : write_entry id off 0 true w
                = (Ok tt, emit (xref_entry_bytes id off 0 true) w)).
    { destruct_world w. subst. cbn. unfold xref_entry_bytes.
      world_eq. }
    rewrite E, IH by (destruct_world w; assumption).
    now rewrite emit_emit.
Qed.

Lemma array_element_ref (c : nat) x (b : bool) w :
  out (self w) = true -> cells w !! c = Some b ->
  start_array_element c (_write_ref x) w
    = (Ok tt, emit ((if b then "" else " ") +:+ ref_bytes x)
                (set_cells (<[c := false]> (cells w)) w)).
Proof.
  intros H Hc. destruct_world w. subst. unfold start_array_element, ref_bytes.
  cbn. rewrite Hc. cbn. destruct b; cbn; world_eq.
  symmetry. now apply list_insert_id.
Qed.

Lemma array_refs_loop ids : forall w (c : nat) (b : bool),
  out (self w) = true -> cells w !! c = Some b ->
  for_each ids (fun id => start_array_element c (_write_ref id)) w
    = (Ok tt, emit (elems_bytes b (map ref_bytes ids))
                (set_cells (<[c := match ids with [] => b | _ => false end]> (cells w)) w)).
Proof.
  induction ids as [|x ids IH]; intros w c b H Hc.
  - rewrite for_each_nil. cbn [map elems_bytes].
    rewrite list_insert_id by assumption.
    destruct_world w. cbn. world_eq.
  - rewrite for_each_cons. cbn [map elems_bytes]. unfold bind at 1.
    rewrite (array_element_ref c x b w H Hc).
    assert (Hlt : (c < length (cells w))%nat) by (eapply lookup_lt_Some; eassumption).
    rewrite (IH _ c false).
    + destruct_world w. world_eq.
      destruct ids; apply list_insert_insert_eq.
    + destruct_world w. assumption.
    + destruct_world w. now apply list_lookup_insert_eq.
Qed.

(** ** Running the writer on an open state

    [run] evaluates a piece of the writer on an explicit open state, one
    statement at a time, along its exception-free path. *)

Lemma run_bind {A B} (m : M A) (k : A -> M B) w a w1 r :
  m w = (Ok a, w1) -> k a w1 = r -> bind m k w = r.
Proof. intros E <-. unfold bind. now rewrite E. Qed.

Lemma run_with {X A} (enter : M X) exit (body : X -> M A) w x w1 a w2 w3 :
  enter w = (Ok x, w1) -> body x w1 = (Ok a, w2) -> exit w2 = (Ok tt, w3) ->
  with_ enter exit body w = (Ok a, w3).
Proof. intros E1 E2 E3. unfold with_. now rewrite E1, E2, E3. Qed.

Lemma is_ascii_app a b : is_ascii (a +:+ b) = is_ascii a && is_ascii b.
Proof.
  induction a as [|c a IH]; cbn; [reflexivity |].
  now rewrite IH, andb_assoc.
Qed.

Lemma pretty_N_go_ascii x : forall s, is_ascii s = true -> is_ascii (pretty_N_go x s) = true.
Proof.
  induction (N.lt_wf_0 x) as [x _ IH]; intros s Hs.
  destruct (decide (0 < x)%N) as [Hx|Hx].
  - rewrite pretty_N_go_step by assumption. apply IH.
    + now apply N.div_lt.
    + cbn. rewrite Hs, andb_true_r. unfold pretty_N_char.
      repeat case_match; reflexivity.
  - assert (x = 0%N) as -> by lia. now rewrite pretty_N_go_0.
Qed.

Lemma pretty_N_ascii (x : N) : is_ascii (pretty x) = true.
Proof.
  unfold pretty, pretty_N. case_decide; [reflexivity |].
  now apply pretty_N_go_ascii.
Qed.

Lemma pretty_Z_ascii (z : Z) : is_ascii (pretty z) = true.
Proof.
  destruct z as [|p|p]; [reflexivity | apply pretty_N_ascii |].
  change (pretty (Z.neg p)) with ("-" +:+ pretty (N.pos p)).
  rewrite is_ascii_app, pretty_N_ascii. reflexivity.
Qed.

Lemma as_ascii_Str s : is_ascii s = true -> as_ascii (Str s) = inr s.
Proof. intros H. unfold as_ascii. now rewrite H. Qed.

Ltac solve_is_ascii :=
  repeat first [rewrite is_ascii_app | rewrite pretty_Z_ascii
               | progress cbn [is_ascii is_ascii_char andb negb String.append] ];
  reflexivity.

Ltac solve_as_ascii :=
  first [ reflexivity | eassumption
        | apply as_ascii_Str; unfold CONTENT_STREAM_TEMPLATE, nl; solve_is_ascii ].

Ltac pure_cbn :=
  cbn [negb truthy Nat.eqb Nat.add Z.eqb default from_option Datatypes.id andb orb
       out owned _id_stream _page_ids _page_tree_root_id _pos _xrefs
       self sink sink_closes cells img_size img_mode img_format].

(** Reading a closure cell of an array that is being written. *)
Lemma lookup_new_cell (l : list bool) b : (l ++ [b])%list !! length l = Some b.
Proof. now apply list_lookup_middle. Qed.

Lemma lookup_set_cell (l : list bool) b b' :
  <[length l := b']> (l ++ [b])%list !! length l = Some b'.
Proof. apply list_lookup_insert_eq. rewrite length_app. cbn. lia. Qed.

Lemma set_set_cell (l : list bool) b b' b'' :
  <[length l := b'']> (<[length l := b']> (l ++ [b])%list)
  = <[length l := b'']> (l ++ [b])%list.
Proof. apply list_insert_insert_eq. Qed.

Lemma insert_new_cell (l : list bool) b b' :
  <[length l := b']> (l ++ [b])%list = (l ++ [b'])%list.
Proof.
  rewrite insert_app_r_alt by lia. now rewrite Nat.sub_diag.
Qed.

Ltac rewrite_cell :=
  rewrite ?set_set_cell; first [rewrite lookup_set_cell | rewrite lookup_new_cell];
  cbn [default from_option Datatypes.id].

Ltac run_gen ext :=
  cbv beta;
  first [ ext tt |
  lazymatch goal with
  | |- bind _ _ _ = _ => eapply run_bind; [run_gen ext | run_gen ext]
  | |- with_ _ _ _ _ = _ => eapply run_with; [run_gen ext | run_gen ext | run_gen ext]
  | |- _write _ _ = _ =>
      etransitivity;
      [ eapply _write_open; [reflexivity | solve_as_ascii] | cbn; reflexivity ]
  | |- _write_header _ = _ => unfold _write_header; run_gen ext
  | |- _write_ref _ _ = _ => unfold _write_ref; run_gen ext
  | |- next_object_id _ = _ => unfold next_object_id; run_gen ext
  | |- start_dict_entry _ _ _ = _ => unfold start_dict_entry; run_gen ext
  | |- start_dict _ _ = _ => unfold start_dict; run_gen ext
  | |- start_stream _ _ = _ => unfold start_stream; run_gen ext
  | |- start_object _ _ _ = _ => unfold start_object; run_gen ext
  | |- start_array _ _ = _ => unfold start_array; run_gen ext
  | |- write_entry _ _ _ _ _ = _ => unfold write_entry; run_gen ext
  | |- _write_page_tree _ = _ => unfold _write_page_tree; run_gen ext
  | |- _write_catalog _ _ _ = _ => unfold _write_catalog; run_gen ext
  | |- _write_xrefs _ = _ => unfold _write_xrefs; run_gen ext
  | |- _write_trailer _ _ = _ => unfold _write_trailer; run_gen ext
  | |- _write_startxref _ _ = _ => unfold _write_startxref; run_gen ext
  | |- _write_footer _ = _ => unfold _write_footer; run_gen ext
  | |- (if _ then _ else _) _ = _ =>
      first [ match goal with H : truthy _ = _ |- _ => rewrite H end
            | progress pure_cbn ]; run_gen ext
  | |- (match _ with _ => _ end) _ = _ => progress pure_cbn; run_gen ext
  | |- (let _ := _ in _) _ = _ => cbv zeta; run_gen ext
  | |- ret _ _ = _ => cbn; reflexivity
  | |- gets _ _ = _ => cbn; reflexivity
  | |- modify _ _ = _ => cbn; reflexivity
  | |- eval _ _ = _ => cbn; reflexivity
  | |- new_cell _ _ = _ => cbn; reflexivity
  | |- write_cell _ _ _ = _ => cbn; reflexivity
  | |- out_close _ = _ => cbn; reflexivity
  | |- for_each _ (fun id => start_array_element _ (_write_ref id)) _ = _ =>
      etransitivity;
      [ eapply array_refs_loop;
        [ reflexivity | cbn [cells]; apply list_lookup_middle; reflexivity ]
      | cbn; reflexivity ]
  | |- for_ _ _ (fun id => start_array_element _ (_write_ref id)) _ = _ =>
      etransitivity;
      [ rewrite for__for_each; erewrite array_refs_loop;
        [ reflexivity | reflexivity
        | cbn [cells]; apply list_lookup_middle; reflexivity ]
      | cbn; reflexivity ]
  | |- start_array_element _ _ _ = _ => unfold start_array_element; run_gen ext
  | |- read_cell _ _ = _ => cbn; rewrite_cell; reflexivity
  | |- for_each _ (fun '(id, offset) => write_entry id offset 0 true) _ = _ =>
      etransitivity;
      [ eapply xref_entries_loop; reflexivity | cbn; reflexivity ]
  end ].

Ltac run := run_gen ltac:(fun _ => fail).

Arguments object_bytes : simpl never.
Arguments image_body_bytes : simpl never.
Arguments content_body_bytes : simpl never.
Arguments page_tree_bytes : simpl never.
Arguments catalog_bytes : simpl never.
Arguments xref_bytes : simpl never.
Arguments xref_entries_bytes : simpl never.
Arguments elems_bytes : simpl never.
Arguments trailer_bytes : simpl never.
Arguments startxref_bytes : simpl never.
Arguments ref_bytes : simpl never.

Ltac unfold_layout :=
  unfold close_bytes, closing_xrefs, xref_pos, catalog_pos, page_tree_pos,
    catalog_id, page_tree_id, after_header, header_bytes,
    page_tree_bytes, catalog_bytes, xref_bytes, trailer_bytes, startxref_bytes,
    image_object_bytes, image_body_bytes, image_dict_bytes, content_object_bytes,
    content_body_bytes, page_bytes,
    object_bytes, object_header, dict_bytes, entry_bytes, stream_bytes,
    array_bytes, ref_bytes, xref_entry_bytes, nl.

Ltac norm_str :=
  repeat first [rewrite str_app_assoc | rewrite str_app_nil_r
               | progress cbn [String.append]].

(** Equality of two layouts, chunk by chunk. *)
Ltac str_eq :=
  lazymatch goal with
  | |- @eq string (String _ _) (String _ _) => f_equal; str_eq
  | |- @eq string (String.append _ _) (String.append _ _) => f_equal; str_eq
  | |- @eq string (pretty _) (pretty _) => f_equal; str_eq
  | |- @eq string (xref_entries_bytes _) (xref_entries_bytes _) => f_equal; str_eq
  | |- @eq string (xref_bytes _) (xref_bytes _) => f_equal; str_eq
  | |- @eq string (trailer_bytes _ _) (trailer_bytes _ _) => f_equal; str_eq
  | |- @eq string (startxref_bytes _) (startxref_bytes _) => f_equal; str_eq
  | |- @eq (list _) (sorted_items _) (sorted_items _) => f_equal; str_eq
  | |- @eq (gmap _ _) (<[_ := _]> _) (<[_ := _]> _) => f_equal; str_eq
  | |- @eq Z (Z.add _ _) (Z.add _ _) => f_equal; str_eq
  | |- @eq Z (Z.of_nat _) (Z.of_nat _) => f_equal; str_eq
  | |- @eq nat (size _) (size _) => f_equal; str_eq
  | |- @eq nat _ _ => solve_pos
  | |- _ => reflexivity
  end.

Ltac layout_eq :=
  cbn; unfold_layout; pure_cbn; change (pretty 0%Z) with "0"; norm_str; str_eq.

(** *** The finalization steps, one by one *)

Lemma _write_page_tree_open w :
  out (self w) = true -> _pos (self w) <> 0%nat ->
  _write_page_tree w =
    (Ok (page_tree_id w),
     emit (page_tree_bytes (page_tree_id w) (_page_ids (self w)))
       (mkWorld
          (mkPdfWriter true (owned (self w))
             match _page_tree_root_id (self w) with
             | Some _ => _id_stream (self w)
             | None => _id_stream (self w) + 1
             end
             (_page_ids (self w)) (Some (page_tree_id w)) (_pos (self w))
             (<[page_tree_id w := _pos (self w)]> (_xrefs (self w))))
          (sink w) (sink_closes w)
          (cells w ++ [match _page_ids (self w) with [] => true | _ => false end])%list)).
Proof.
  intros H Hp. open_world w. destruct _pos0 as [|n]; [congruence |].
  unfold page_tree_id. cbn [self _page_tree_root_id _id_stream default from_option Datatypes.id].
  destruct _page_tree_root_id0 as [T|].
  all: etransitivity; [unfold _write_page_tree; run |].
  all: unfold_layout; cbn; rewrite ?insert_new_cell; world_eq.
Qed.

Lemma _write_catalog_open w root :
  out (self w) = true -> _pos (self w) <> 0%nat ->
  _write_catalog None root w =
    (Ok (_id_stream (self w)),
     emit (catalog_bytes (_id_stream (self w)) root)
       (mkWorld
          (mkPdfWriter true (owned (self w)) (_id_stream (self w) + 1)
             (_page_ids (self w)) (_page_tree_root_id (self w)) (_pos (self w))
             (<[_id_stream (self w) := _pos (self w)]> (_xrefs (self w))))
          (sink w) (sink_closes w) (cells w))).
Proof.
  intros H Hp. open_world w. destruct _pos0 as [|n]; [congruence |].
  etransitivity; [unfold _write_catalog; run |].
  unfold_layout; cbn; world_eq.
Qed.

Lemma _write_xrefs_open w :
  out (self w) = true ->
  _write_xrefs w = (Ok (_pos (self w)), emit (xref_bytes (_xrefs (self w))) w).
Proof.
  intros H. open_world w.
  etransitivity; [unfold _write_xrefs; run |].
  unfold_layout; cbn; change (pretty 0%Z) with "0"; world_eq.
Qed.

Lemma _write_trailer_open w catalog :
  out (self w) = true ->
  _write_trailer catalog w =
    (Ok tt, emit (trailer_bytes (Z.of_nat (size (_xrefs (self w))) + 1) catalog) w).
Proof.
  intros H. open_world w.
  etransitivity; [unfold _write_trailer; run |].
  unfold_layout; cbn; world_eq.
Qed.

Lemma _write_startxref_open w pos :
  out (self w) = true ->
  _write_startxref pos w = (Ok tt, emit (startxref_bytes pos) w).
Proof.
  intros H. open_world w.
  etransitivity; [unfold _write_startxref; run |].
  unfold_layout; cbn; world_eq.
Qed.

Ltac solve_pos_nonzero := cbn [self _pos]; first [discriminate | lia].

(** [run], extended with the finalization steps. *)
Ltac close_steps _ :=
  lazymatch goal with
  | |- _write_page_tree _ = _ =>
      etransitivity;
      [ eapply _write_page_tree_open; [reflexivity | solve_pos_nonzero]
      | unfold page_tree_id; cbn; reflexivity ]
  | |- _write_catalog _ _ _ = _ =>
      etransitivity;
      [ eapply _write_catalog_open; [reflexivity | solve_pos_nonzero]
      | cbn; reflexivity ]
  | |- _write_xrefs _ = _ =>
      etransitivity; [ eapply _write_xrefs_open; reflexivity | cbn; reflexivity ]
  | |- _write_trailer _ _ = _ =>
      etransitivity; [ eapply _write_trailer_open; reflexivity | cbn; reflexivity ]
  | |- _write_startxref _ _ = _ =>
      etransitivity; [ eapply _write_startxref_open; reflexivity | cbn; reflexivity ]
  end.

Ltac run_close := run_gen close_steps.

Lemma close_open w :
  out (self w) = true ->
  let r := close w in
  fst r = Ok tt /\
  sink (snd r) = sink w +:+ close_bytes w /\
  _xrefs (self (snd r)) = closing_xrefs w /\
  out (self (snd r)) = false /\
  _pos (self (snd r)) <> 0%nat /\
  _page_tree_root_id (self (snd r)) = Some (page_tree_id w) /\
  _id_stream (self (snd r)) = catalog_id w + 1 /\
  _page_ids (self (snd r)) = _page_ids (self w) /\
  sink_closes (snd r) =
    (if owned (self w) then S (sink_closes w) else sink_closes w).
Proof.
  intros H. open_world w.
  destruct _pos0 as [|n], _page_tree_root_id0 as [T|], owned0.
  all: match goal with |- context [close ?W] =>
         eassert (E : close W = (Ok tt, _)) by (unfold close; run_close)
       end.
  all: rewrite E; cbv zeta; cbn [fst snd].
  all: repeat split; try (cbn; congruence).
  all: unfold close_bytes, closing_xrefs, xref_pos, catalog_pos, page_tree_pos,
         catalog_id, page_tree_id, after_header, header_bytes;
       cbn; norm_str; str_eq.
Qed.

(** *** The optional entries of a page dictionary *)

Lemma resources_entry res rbs w :
  out (self w) = true -> encoded res rbs ->
  match res with
  | Some resources => start_dict_entry "Resources" (_write resources)
  | None => ret tt
  end w
  = (Ok tt, emit match rbs with
                 | Some r => entry_bytes "Resources" r
                 | None => ""
                 end w).
Proof.
  intros H Hres. open_world w.
  destruct res as [res|], rbs as [rbs|]; try contradiction; cbn in Hres.
  - etransitivity; [run |]. unfold entry_bytes. cbn. world_eq.
  - cbn. world_eq.
Qed.

Lemma media_box_entry mb mbs w :
  out (self w) = true -> _pos (self w) <> 0%nat -> encoded_box mb mbs ->
  match mb with
  | Some (ll_x, ll_y, ur_x, ur_y) =>
      start_dict_entry "MediaBox" (
        start_array (fun start_array_element_ =>
          start_array_element start_array_element_ (_write ll_x) ;;
          start_array_element start_array_element_ (_write ll_y) ;;
          start_array_element start_array_element_ (_write ur_x) ;;
          start_array_element start_array_element_ (_write ur_y)))
  | None => ret tt
  end w
  = (Ok tt,
     emit match mbs with
          | Some (ll_x, ll_y, ur_x, ur_y) =>
              entry_bytes "MediaBox" (array_bytes [ll_x; ll_y; ur_x; ur_y])
          | None => ""
          end
       (set_cells match mb with
                  | Some _ => (cells w ++ [false])%list
                  | None => cells w
                  end w)).
Proof.
  intros H Hp Hmb. open_world w. destruct _pos0 as [|n]; [congruence |].
  destruct mb as [[[[ll_x ll_y] ur_x] ur_y]|],
    mbs as [[[[ll_x' ll_y'] ur_x'] ur_y']|]; try contradiction; cbn in Hmb.
  - destruct Hmb as (Hx1 & Hy1 & Hx2 & Hy2).
    etransitivity; [run |]. unfold entry_bytes, array_bytes, elems_bytes.
    cbn. rewrite ?set_set_cell, ?insert_new_cell. world_eq.
  - cbn. world_eq.
Qed.

Lemma contents_entry cid id w :
  out (self w) = true -> _pos (self w) <> 0%nat ->
  match cid with
  | Some (ManyIds ids) =>
      start_dict_entry "Contents" (
        start_array (fun start_array_element_ =>
          for_ ids id (fun id =>
            start_array_element start_array_element_ (_write_ref id))))
  | Some (OneId contents_id) =>
      start_dict_entry "Contents" (_write_ref contents_id) ;;
      ret id
  | None => ret id
  end w
  = (Ok (page_return id cid),
     emit match cid with
          | Some (OneId c) => entry_bytes "Contents" (ref_bytes c)
          | Some (ManyIds ids) =>
              entry_bytes "Contents" (array_bytes (map ref_bytes ids))
          | None => ""
          end
       (set_cells match cid with
                  | Some (ManyIds ids) =>
                      (cells w ++ [match ids with [] => true | _ => false end])%list
                  | _ => cells w
                  end w)).
Proof.
  intros H Hp. open_world w. destruct _pos0 as [|n]; [congruence |].
  destruct cid as [[c|ids]|].
  - etransitivity; [run |]. unfold entry_bytes, ref_bytes. cbn. world_eq.
  - etransitivity; [run |]. unfold entry_bytes, array_bytes.
    cbn. rewrite ?set_set_cell, ?insert_new_cell. world_eq.
  - cbn. world_eq.
Qed.

Ltac page_steps _ :=
  lazymatch goal with
  | |- (match _ with Some _ => _ | None => _ end) _ = _ =>
      first
        [ etransitivity;
          [ eapply resources_entry; [reflexivity | eassumption]
          | cbn; reflexivity ]
        | etransitivity;
          [ eapply media_box_entry; [reflexivity | solve_pos_nonzero | eassumption]
          | cbn; reflexivity ]
        | etransitivity;
          [ eapply contents_entry; [reflexivity | solve_pos_nonzero]
          | cbn; reflexivity ] ]
  end.

Ltac run_page := run_gen page_steps.

Lemma write_page_open w id cid mb pid res rbs mbs :
  out (self w) = true -> encoded res rbs -> encoded_box mb mbs ->
  let page := page_object_id w id pid in
  let parent := page_parent_id w pid in
  let r := write_page id cid mb pid res w in
  fst r = Ok (page_return page cid) /\
  sink (snd r) = sink w +:+ header_bytes w +:+ page_bytes page parent rbs mbs cid /\
  _page_ids (self (snd r)) = (_page_ids (self w) ++ [page])%list /\
  _xrefs (self (snd r)) = <[page := _pos (self (after_header w))]> (_xrefs (self w)) /\
  out (self (snd r)) = true /\
  _pos (self (snd r)) <> 0%nat /\
  _page_tree_root_id (self (snd r)) =
    match pid with
    | Some _ => _page_tree_root_id (self w)
    | None => Some parent
    end /\
  _id_stream (self (snd r)) =
    match id with
    | Some _ => page_id_stream w pid
    | None => page_id_stream w pid + 1
    end.
Proof.
  intros H Hres Hmb. open_world w.
  unfold page_object_id, page_parent_id, page_id_stream.
  cbn [self _page_tree_root_id _id_stream].
  destruct pid as [pid|];
    [| destruct (truthy _page_tree_root_id0) eqn:Tr ].
  all: destruct _pos0 as [|n], id as [id|].
  all: match goal with |- context [write_page ?a ?b ?c ?d ?e ?W] =>
         eassert (E : write_page a b c d e W = (Ok _, _))
           by (unfold write_page; run_page)
       end.
  all: rewrite E; cbv zeta; cbn [fst snd default from_option Datatypes.id].
  all: repeat split; try (cbn; congruence).
  all: cbn; unfold_layout; cbn; norm_str; str_eq.
Qed.

(** ** Writes after close, operation by operation *)

(** C3 (as amended). On a closed writer ([self.out is None]) every write
    operation fails and appends no byte to the sink, whatever body a
    scope is given. [write_page], [start_object], [start_dict],
    [start_array] and [start_stream] fail with [WriterClosedError].
    [write_image_page] fails with [WriterClosedError] when its image is
    decodable and of a recognized mode and format, and also when the
    header has not been written (a writer created without a sink).
    Otherwise, when the header has been written, it fails with the error
    of the decoder if the image cannot be decoded, and else with the
    [KeyError] of the first lookup that fails, the mode before the
    format. The header has been written on every writer that [close]
    closed. *)
Theorem write_after_close_fails (Image_open : string -> exn + Image) (w : world) :
  out (self w) = false ->
  (forall id cid mb pid res, exists w',
      write_page id cid mb pid res w = (Raise WriterClosedError, w') /\
      sink w' = sink w) /\
  (forall A id (body : Z -> M A), exists w',
      start_object id body w = (Raise WriterClosedError, w') /\
      sink w' = sink w) /\
  (forall A (body : M A), exists w',
      start_dict body w = (Raise WriterClosedError, w') /\ sink w' = sink w) /\
  (forall A (body : nat -> M A), exists w',
      start_array body w = (Raise WriterClosedError, w') /\ sink w' = sink w) /\
  (forall A (body : M A), exists w',
      start_stream body w = (Raise WriterClosedError, w') /\ sink w' = sink w) /\
  (forall id contents cid iid mb pid, exists e w',
      write_image_page Image_open id contents cid iid mb pid w = (Raise e, w') /\
      sink w' = sink w /\
      (recognized Image_open contents -> e = WriterClosedError) /\
      (_pos (self w) = 0%nat -> e = WriterClosedError) /\
      (_pos (self w) <> 0%nat ->
       e = match Image_open contents with
           | inl d => d
           | inr img =>
               match MODE2COLOR_SPACE !! img_mode img with
               | None => KeyError (img_mode img)
               | Some _ =>
                   match FORMAT2FILTER !! img_format img with
                   | None => KeyError (img_format img)
                   | Some _ => WriterClosedError
                   end
               end
           end)) /\
  (forall w0, out (self w0) = true -> close w0 = (Ok tt, w) ->
     _pos (self w) <> 0%nat).
Proof.
  intros H. repeat apply conj; intros.
  - now apply write_page_closed.
  - destruct (start_object_closed id body w H) as (w' & E & S & _). eauto.
  - now apply start_dict_closed.
  - now apply start_array_closed.
  - now apply start_stream_closed.
  - now apply write_image_page_closed_error.
  - match goal with
    | O : out (self ?w0) = true, E : close ?w0 = _ |- _ =>
        pose proof (close_open w0 O) as C; cbv zeta in C; rewrite E in C;
        exact (proj1 (proj2 (proj2 (proj2 (proj2 C)))))
    end.
Qed.

Lemma write_after_close_fails_witness :
  out (self closed_sample) = false /\
  (exists w',
    write_page None None None None None closed_sample = (Raise WriterClosedError, w') /\
    sink w' = sink closed_sample) /\
  (exists e w',
    write_image_page sample_decoder None "not an image" None None None None
      closed_sample = (Raise e, w') /\
    sink w' = sink closed_sample /\
    e = ExternalError "UnidentifiedImageError") /\
  _pos (self closed_sample) <> 0%nat.
Proof.
  pose proof (write_after_close_fails sample_decoder closed_sample eq_refl)
    as (P & _ & _ & _ & _ & I & C).
  split; [reflexivity |]. split; [exact (P None None None None None) |].
  split.
  - destruct (I None "not an image" None None None None)
      as (e & w' & E & S & _ & _ & N).
    exists e, w'. split; [exact E |]. split; [exact S |].
    rewrite (N ltac:(vm_compute; discriminate)). reflexivity.
  - apply (C new_writer); vm_compute; reflexivity.
Defined.

(** C3 (as stated) fails: on a closed writer, [write_image_page] with an
    image of an unrecognized mode raises the [KeyError] of the table
    lookup, not [WriterClosedError]. *)
Lemma write_image_page_after_close_KeyError :
  write_image_page sample_decoder None "A" None None None None closed_sample
    = (Raise (KeyError "RGBA"), closed_sample) /\
  KeyError "RGBA" <> WriterClosedError.
Proof. split; [vm_compute; reflexivity | discriminate]. Qed.

(** ** Invariants along the writer's operations *)

Lemma _write_raises w v e :
  out (self w) = true -> as_ascii v = inl e -> _write v w = (Raise e, w).
Proof.
  intros H E. unfold _write, bind, gets. rewrite H, E. reflexivity.
Qed.

Lemma start_object_enter_open id w :
  out (self w) = true ->
  let w0 := after_header w in
  let id' := default (_id_stream (self w)) id in
  start_object_enter id w =
    (Ok id',
     emit (object_header id')
       (update (fun p => set_xrefs (<[id' := _pos p]> (_xrefs p)) p)
          match id with
          | Some _ => w0
          | None => update (set_id_stream (_id_stream (self w0) + 1)) w0
          end)).
Proof.
  intros H. open_world w. unfold after_header.
  destruct _pos0 as [|n], id as [id|].
  all: etransitivity; [unfold start_object_enter; run |].
  all: unfold object_header; cbn; world_eq.
Qed.

Section Keeps.

Variable I : world -> Prop.

Lemma keeps_ret {A} (a : A) : keeps I (ret a).
Proof. intros w Hw. exact Hw. Qed.

Lemma keeps_throw {A} e : keeps I (@throw A e).
Proof. intros w Hw. exact Logic.I. Qed.

Lemma keeps_return {A} : keeps I (@return_ A).
Proof. intros w Hw. exact Hw. Qed.

Lemma keeps_gets {A} (f : PdfWriter -> A) : keeps I (gets f).
Proof. intros w Hw. exact Hw. Qed.

Lemma keeps_eval {A} (r : exn + A) : keeps I (eval r).
Proof. intros w Hw. destruct r; [exact Logic.I | exact Hw]. Qed.

Lemma keeps_read_cell c : keeps I (read_cell c).
Proof. intros w Hw. exact Hw. Qed.

Lemma keeps_bind {A B} (m : M A) (k : A -> M B) :
  keeps I m -> (forall a, keeps I (k a)) -> keeps I (bind m k).
Proof.
  intros Hm Hk w Hw. specialize (Hm w Hw). unfold bind.
  destruct (m w) as [[a| |e] w1]; [| exact Hm | exact Logic.I].
  exact (Hk a w1 Hm).
Qed.

Lemma keeps_with {X A} (enter : M X) exit (body : X -> M A) :
  keeps I enter -> keeps I exit -> (forall x, keeps I (body x)) ->
  keeps I (with_ enter exit body).
Proof.
  intros He Hx Hb w Hw. specialize (He w Hw). unfold with_.
  destruct (enter w) as [[x| |e] w1]; [| exact He | exact Logic.I].
  specialize (Hb x w1 He).
  destruct (body x w1) as [[a| |e] w2]; [| | exact Logic.I];
    specialize (Hx w2 Hb);
    destruct (exit w2) as [[[]| |e] w3]; assumption.
Qed.

Lemma keeps_with_writer {A} (body : M A) :
  keeps I __enter__ -> keeps I __exit__ -> keeps I body ->
  keeps I (with_writer body).
Proof.
  intros He Hx Hb w Hw. specialize (He w Hw). unfold with_writer.
  destruct (__enter__ w) as [[[]| |e] w1]; [| exact He | exact Logic.I].
  specialize (Hb w1 He).
  destruct (body w1) as [[a| |e] w2].
  - specialize (Hx w2 Hb). destruct (__exit__ w2) as [[[]| |e] w3]; assumption.
  - specialize (Hx w2 Hb). destruct (__exit__ w2) as [[[]| |e] w3]; assumption.
  - destruct (__exit__ w2) as [[[]| |e'] w3]; exact Logic.I.
Qed.

Lemma keeps_for {X} (xs : list X) x0 body :
  (forall x, keeps I (body x)) -> keeps I (for_ xs x0 body).
Proof.
  intros Hb. revert x0. induction xs as [|x xs IH]; intros x0.
  - rewrite for__nil. apply keeps_ret.
  - rewrite for__cons. apply keeps_bind; [apply Hb | intros _; apply IH].
Qed.

Lemma keeps_for_each {X} (xs : list X) body :
  (forall x, keeps I (body x)) -> keeps I (for_each xs body).
Proof.
  intros Hb. induction xs as [|x xs IH].
  - rewrite for_each_nil. apply keeps_ret.
  - rewrite for_each_cons. apply keeps_bind; [apply Hb | intros _; apply IH].
Qed.

(** What the invariant has to tolerate: a successful write, a change of
    the closure cells, the allocation of an id, a new page list, and the
    start of an object. *)
Hypothesis I_emit : forall w bs, out (self w) = true -> I w -> I (emit bs w).
Hypothesis I_cells : forall w cs, I w -> I (set_cells cs w).
Hypothesis I_id : forall w,
  I w -> I (update (set_id_stream (_id_stream (self w) + 1)) w).
Hypothesis I_pages : forall w l, I w -> I (update (set_page_ids l) w).
Hypothesis I_object : forall w id,
  out (self w) = true -> I w ->
  I (emit (object_header id)
       (update (fun p => set_xrefs (<[id := _pos p]> (_xrefs p)) p) w)).

Lemma keeps__write v : keeps I (_write v).
Proof.
  intros w Hw. destruct (out (self w)) eqn:O.
  - destruct (as_ascii v) as [e|bs] eqn:E.
    + now rewrite (_write_raises w v e O E).
    + rewrite (_write_open w v bs O E). now apply I_emit.
  - now rewrite (_write_closed w v O).
Qed.

Lemma keeps__write_header : keeps I _write_header.
Proof.
  unfold _write_header. apply keeps_bind; [apply keeps_gets |].
  intros pos. destruct (pos =? 0)%nat; [apply keeps__write | apply keeps_ret].
Qed.

Lemma keeps_next_object_id : keeps I next_object_id.
Proof. intros w Hw. cbn. now apply I_id. Qed.

Lemma keeps_new_cell b : keeps I (new_cell b).
Proof. intros w Hw. cbn. now apply (I_cells w). Qed.

Lemma keeps_write_cell c b : keeps I (write_cell c b).
Proof. intros w Hw. cbn. now apply (I_cells w). Qed.

Lemma keeps_modify_page_ids f :
  keeps I (modify (fun p => set_page_ids (f p) p)).
Proof. intros w Hw. cbn. now apply (I_pages w). Qed.

Lemma keeps__write_ref id : keeps I (_write_ref id).
Proof.
  unfold _write_ref. apply keeps_bind; [apply keeps_eval | intros bs].
  apply keeps_bind; [apply keeps__write | intros _; apply keeps__write].
Qed.

Lemma keeps_start_object_enter id : keeps I (start_object_enter id).
Proof.
  intros w Hw. destruct (out (self w)) eqn:O.
  - rewrite (start_object_enter_open id w O). cbv zeta.
    assert (H0 : I (after_header w) /\ out (self (after_header w)) = true).
    { unfold after_header. destruct (_pos (self w) =? 0)%nat.
      - split; [now apply I_emit | now destruct w as [[]]].
      - now split. }
    destruct H0 as [H0 O0]. apply I_object.
    + destruct id; [exact O0 |]. now destruct (after_header w) as [[]].
    + destruct id; [exact H0 | now apply I_id].
  - destruct (start_object_enter_closed id w O) as (w' & E & _).
    now rewrite E.
Qed.

Lemma keeps_start_object {A} id (body : Z -> M A) :
  (forall id', keeps I (body id')) -> keeps I (start_object id body).
Proof.
  intros Hb.
  change (start_object id body) with
    (with_ (start_object_enter id) (_write (Bytes ("endobj" +:+ nl))) body).
  apply keeps_with; [apply keeps_start_object_enter | apply keeps__write | exact Hb].
Qed.

Lemma keeps_start_array_element {A} c (body : M A) :
  keeps I body -> keeps I (start_array_element c body).
Proof.
  intros Hb. unfold start_array_element. apply keeps_with.
  - apply keeps_bind; [apply keeps_read_cell |].
    intros []; [apply keeps_write_cell | apply keeps__write].
  - apply keeps_ret.
  - intros _. exact Hb.
Qed.

Lemma keeps_start_array {A} (body : nat -> M A) :
  (forall c, keeps I (body c)) -> keeps I (start_array body).
Proof.
  intros Hb. unfold start_array. apply keeps_with; [| apply keeps__write | exact Hb].
  apply keeps_bind; [apply keeps__write_header | intros _].
  apply keeps_bind; [apply keeps_new_cell | intros c].
  apply keeps_bind; [apply keeps__write | intros _; apply keeps_ret].
Qed.

Lemma keeps_start_dict_entry {A} key (body : M A) :
  keeps I body -> keeps I (start_dict_entry key body).
Proof.
  intros Hb. unfold start_dict_entry.
  apply keeps_with; [| apply keeps__write | intros _; exact Hb].
  apply keeps_bind; [apply keeps__write | intros _].
  apply keeps_bind; [apply keeps__write | intros _; apply keeps__write].
Qed.

Lemma keeps_start_dict {A} (body : M A) :
  keeps I body -> keeps I (start_dict body).
Proof.
  intros Hb. unfold start_dict.
  apply keeps_with; [| apply keeps__write | intros _; exact Hb].
  apply keeps_bind; [apply keeps__write_header | intros _; apply keeps__write].
Qed.

Lemma keeps_start_stream {A} (body : M A) :
  keeps I body -> keeps I (start_stream body).
Proof.
  intros Hb. unfold start_stream.
  apply keeps_with; [| apply keeps__write | intros _; exact Hb].
  apply keeps_bind; [apply keeps__write_header | intros _; apply keeps__write].
Qed.

Ltac keeps_auto :=
  repeat (cbv beta zeta;
    lazymatch goal with
    | |- keeps _ (bind _ _) => apply keeps_bind; [| intros ?]
    | |- keeps _ (ret _) => apply keeps_ret
    | |- keeps _ (gets _) => apply keeps_gets
    | |- keeps _ (eval _) => apply keeps_eval
    | |- keeps _ (throw _) => apply keeps_throw
    | |- keeps _ (_write _) => apply keeps__write
    | |- keeps _ _write_header => apply keeps__write_header
    | |- keeps _ (_write_ref _) => apply keeps__write_ref
    | |- keeps _ next_object_id => apply keeps_next_object_id
    | |- keeps _ (modify (fun p => set_page_ids _ p)) =>
        apply keeps_modify_page_ids
    | |- keeps _ (start_object _ _) => apply keeps_start_object; intros ?
    | |- keeps _ (start_dict _) => apply keeps_start_dict
    | |- keeps _ (start_dict_entry _ _) => apply keeps_start_dict_entry
    | |- keeps _ (start_stream _) => apply keeps_start_stream
    | |- keeps _ (start_array _) => apply keeps_start_array; intros ?
    | |- keeps _ (start_array_element _ _) => apply keeps_start_array_element
    | |- keeps _ (for_ _ _ _) => apply keeps_for; intros ?
    | |- keeps _ (for_each _ _) => apply keeps_for_each; intros ?
    | |- keeps _ (match ?x with _ => _ end) => destruct x
    | |- keeps _ (if ?b then _ else _) => destruct b
    end).

(** A page written under a parent chosen by the caller. *)
Lemma keeps_write_page_parent id cid mb parent res :
  keeps I (write_page id cid mb (Some parent) res).
Proof. unfold write_page. keeps_auto. Qed.

Lemma keeps_write_image_page_parent dec id c cid iid mb parent :
  keeps I (write_image_page dec id c cid iid mb (Some parent)).
Proof.
  unfold write_image_page. keeps_auto.
  apply keeps_write_page_parent.
Qed.

(** The remaining changes of state: reserving the tree root, closing
    the sink, and dropping it. *)
Hypothesis I_root : forall w r,
  I w -> I (update (set_page_tree_root_id (Some r)) w).
Hypothesis I_sink_close : forall w,
  I w -> I (mkWorld (self w) (sink w) (S (sink_closes w)) (cells w)).
Hypothesis I_out : forall w, I w -> I (update (set_out false) w).

Lemma keeps_modify_root r : keeps I (modify (set_page_tree_root_id (Some r))).
Proof. intros w Hw. cbn. now apply (I_root w). Qed.

Lemma keeps_out_close : keeps I out_close.
Proof. intros w Hw. cbn. now apply I_sink_close. Qed.

Lemma keeps_modify_out : keeps I (modify (set_out false)).
Proof. intros w Hw. cbn. now apply (I_out w). Qed.

Ltac keeps_all :=
  repeat first
    [ progress keeps_auto
    | lazymatch goal with
      | |- keeps _ (modify (set_page_tree_root_id _)) => apply keeps_modify_root
      | |- keeps _ out_close => apply keeps_out_close
      | |- keeps _ (modify (set_out false)) => apply keeps_modify_out
      | |- keeps _ (write_entry _ _ _ _) => unfold write_entry
      end ].

Lemma keeps_write_page id cid mb pid res :
  keeps I (write_page id cid mb pid res).
Proof. unfold write_page. keeps_all. Qed.

Lemma keeps_write_image_page dec id c cid iid mb pid :
  keeps I (write_image_page dec id c cid iid mb pid).
Proof.
  unfold write_image_page. keeps_all.
  apply keeps_write_page.
Qed.

Lemma keeps_close : keeps I close.
Proof.
  unfold close, _write_page_tree, _write_catalog, _write_xrefs, _write_trailer,
    _write_startxref, _write_footer, write_entry.
  keeps_all.
Qed.

End Keeps.

(** Every program of the caller keeps an invariant that the primitive
    changes of state and [close] keep. *)
Section CallerCode.

Variable I : world -> Prop.

Hypothesis I_emit : forall w bs, out (self w) = true -> I w -> I (emit bs w).
Hypothesis I_cells : forall w cs, I w -> I (set_cells cs w).
Hypothesis I_id : forall w,
  I w -> I (update (set_id_stream (_id_stream (self w) + 1)) w).
Hypothesis I_pages : forall w l, I w -> I (update (set_page_ids l) w).
Hypothesis I_object : forall w id,
  out (self w) = true -> I w ->
  I (emit (object_header id)
       (update (fun p => set_xrefs (<[id := _pos p]> (_xrefs p)) p) w)).
Hypothesis I_root : forall w r,
  I w -> I (update (set_page_tree_root_id (Some r)) w).
Hypothesis I_close : keeps I close.

Lemma caller_code_keeps dec A (m : M A) :
  caller_code dec A m -> keeps I m.
Proof.
  induction 1.
  - apply keeps_ret.
  - now apply keeps_bind.
  - apply keeps_throw.
  - apply keeps_return.
  - now apply keeps_next_object_id.
  - now apply keeps__write.
  - now apply keeps__write_ref.
  - now apply keeps_start_array.
  - now apply keeps_start_array_element.
  - now apply keeps_start_dict.
  - now apply keeps_start_dict_entry.
  - now apply keeps_start_object.
  - now apply keeps_start_stream.
  - now apply keeps_write_page.
  - now apply keeps_write_image_page.
  - exact I_close.
  - now apply keeps__write_header.
  - apply keeps_with_writer; [now apply keeps__write_header | exact I_close | assumption].
Qed.

End CallerCode.

(** ** Image pages *)

(** On an open writer a failed table lookup ends the call. *)
Lemma write_image_page_lookup_raises dec w id c cid iid mb pid img :
  out (self w) = true -> dec c = inr img ->
  MODE2COLOR_SPACE !! img_mode img = None \/
  FORMAT2FILTER !! img_format img = None ->
  exists key w',
    write_image_page dec id c cid iid mb pid w = (Raise (KeyError key), w').
Proof.
  intros O D Hk. open_world w. unfold write_image_page.
  destruct _pos0; cbn; rewrite D; cbn; destruct (img_size img) as [wd ht];
    unfold getitem;
    (destruct (MODE2COLOR_SPACE !! img_mode img) eqn:Hm; cbn;
     [ destruct (FORMAT2FILTER !! img_format img) eqn:Hf; cbn;
       [ destruct Hk; congruence |] |]);
    eexists _, _; reflexivity.
Qed.

Lemma write_image_page_undecodable dec w id c cid iid mb pid e :
  out (self w) = true -> dec c = inl e ->
  fst (write_image_page dec id c cid iid mb pid w) = Raise e.
Proof.
  intros H D. open_world w. unfold write_image_page. rewrite D.
  destruct _pos0; reflexivity.
Qed.

Lemma after_header_nonzero w : _pos (self w) <> 0%nat -> after_header w = w.
Proof.
  intros H. unfold after_header.
  destruct (_pos (self w)); [congruence | reflexivity].
Qed.

(** An object whose body writes the bytes [bs]. *)
Lemma start_object_written {A} id (body : Z -> M A) bs (a : Z -> A) w :
  out (self w) = true -> _pos (self w) <> 0%nat ->
  (forall k w1, out (self w1) = true -> _pos (self w1) <> 0%nat ->
     body k w1 = (Ok (a k), emit bs w1)) ->
  start_object id body w
    = (Ok (a (default (_id_stream (self w)) id)), object_written id bs w).
Proof.
  intros H Hp Hb.
  change (start_object id body) with
    (with_ (start_object_enter id) (_write (Bytes ("endobj" +:+ nl))) body).
  eapply run_with.
  - rewrite (start_object_enter_open id w H), (after_header_nonzero w Hp).
    reflexivity.
  - apply Hb; destruct id; open_world w; cbn; first [reflexivity | lia].
  - etransitivity.
    + apply (_write_open _ _ ("endobj" +:+ nl));
        [destruct id; open_world w; reflexivity | reflexivity].
    + unfold object_written, object_bytes.
      destruct id; open_world w; cbn; world_eq.
Qed.

Lemma image_body_run width height color_space filter c (k : Z) w :
  out (self w) = true -> _pos (self w) <> 0%nat ->
  (start_dict (
     start_dict_entry "Type" (_write (Bytes "/XObject")) ;;
     start_dict_entry "Subtype" (_write (Bytes "/Image")) ;;
     start_dict_entry "Width" (_write (Int width)) ;;
     start_dict_entry "Height" (_write (Int height)) ;;
     start_dict_entry "ColorSpace" (_write (Bytes color_space)) ;;
     start_dict_entry "BitsPerComponent" (_write (Bytes "8")) ;;
     start_dict_entry "Length" (_write (Int (Z.of_nat (String.length c)))) ;;
     start_dict_entry "Filter" (_write (Bytes filter))) ;;
   start_stream (_write (Bytes c)) ;;
   ret k) w
  = (Ok k, emit (image_body_bytes width height color_space filter c) w).
Proof.
  intros H Hp. open_world w. destruct _pos0 as [|n]; [congruence |].
  etransitivity; [run |].
  unfold_layout; cbn; world_eq.
Qed.

Lemma content_body_run content_stream (k : Z) w :
  out (self w) = true -> _pos (self w) <> 0%nat ->
  is_ascii content_stream = true ->
  (start_dict (
     start_dict_entry "Length" (
       bs <- eval (as_ascii (Int (Z.of_nat (String.length content_stream)))) ;;
       _write (Bytes bs))) ;;
   start_stream (_write (Str content_stream)) ;;
   ret k) w
  = (Ok k, emit (content_body_bytes content_stream) w).
Proof.
  intros H Hp Ha. open_world w. destruct _pos0 as [|n]; [congruence |].
  apply as_ascii_Str in Ha.
  etransitivity; [run |].
  unfold_layout; cbn; world_eq.
Qed.

Lemma CONTENT_STREAM_TEMPLATE_ascii width height :
  is_ascii (CONTENT_STREAM_TEMPLATE width height) = true.
Proof. unfold CONTENT_STREAM_TEMPLATE, nl. solve_is_ascii. Qed.

Ltac image_steps _ :=
  lazymatch goal with
  | |- eval (getitem _ _) _ = _ =>
      unfold getitem; cbn [img_mode img_format];
      match goal with H : _ !! _ = Some _ |- _ => rewrite H end;
      cbn; reflexivity
  | |- start_object _ _ _ = _ =>
      etransitivity;
      [ eapply start_object_written;
        [ reflexivity | solve_pos_nonzero
        | intros ? ? ? ?;
          first [ eapply image_body_run; assumption
                | eapply content_body_run;
                  [assumption | assumption | apply CONTENT_STREAM_TEMPLATE_ascii] ] ]
      | unfold object_written; cbn; reflexivity ]
  | |- write_page _ _ _ _ _ _ = write_page _ _ _ _ _ _ =>
      f_equal; unfold object_written, after_header; cbn; world_eq
  end.

Lemma write_image_page_prefix dec w id c cid iid mb pid img color_space filter :
  out (self w) = true -> dec c = inr img ->
  MODE2COLOR_SPACE !! img_mode img = Some color_space ->
  FORMAT2FILTER !! img_format img = Some filter ->
  let width := fst (img_size img) in
  let height := snd (img_size img) in
  let w1 := object_written iid
              (image_body_bytes width height color_space filter c)
              (after_header w) in
  let w2 := object_written cid
              (content_body_bytes (CONTENT_STREAM_TEMPLATE width height)) w1 in
  let image_id := default (_id_stream (self w)) iid in
  let contents_id := default (_id_stream (self w1)) cid in
  write_image_page dec id c cid iid mb pid w =
    write_page id (Some (OneId contents_id))
      (Some match mb with
            | None => (Int 0, Int 0, Int width, Int height)
            | Some media_box => media_box
            end)
      pid
      (Some (Str ("<< /XObject << /Img " +:+ pretty image_id +:+ " 0 R >> >>")))
      w2.
Proof.
  intros H D Hm Hf. open_world w. destruct img as [[wd ht] mode fmt].
  cbn [img_size img_mode img_format fst snd] in *.
  unfold write_image_page. rewrite D.
  destruct _pos0 as [|n].
  all: cbv zeta; run_gen image_steps.
Qed.

Lemma extends_refl w : extends (sink w) w.
Proof. exists "". now rewrite str_app_nil_r. Qed.

Lemma extends_emit s0 w bs : extends s0 w -> extends s0 (emit bs w).
Proof.
  intros [rest E]. exists (rest +:+ bs). destruct w as [p s c l]. cbn in *.
  now rewrite E, str_app_assoc.
Qed.

Lemma keeps_extends_write_page s0 id cid mb pid res :
  keeps (extends s0) (write_page id cid mb pid res).
Proof.
  apply keeps_write_page; intros; try assumption.
  - now apply extends_emit.
  - now apply extends_emit.
Qed.

(** C8. When [write_image_page] succeeds, the bytes it appended begin
    (after the document header, if that was still due) with the image
    object and the content-stream object, and in each of the two the
    [/Length] entry of the dictionary is the number of bytes written
    between [stream\n] and [\nendstream\n]: the encoded image for the
    first, the four-line drawing program for the second. *)
Theorem write_image_page_stream_lengths (Image_open : string -> exn + Image)
    (w w' : world) id contents cid iid mb pid page :
  write_image_page Image_open id contents cid iid mb pid w = (Ok page, w') ->
  exists img color_space filter rest,
    Image_open contents = inr img /\
    MODE2COLOR_SPACE !! img_mode img = Some color_space /\
    FORMAT2FILTER !! img_format img = Some filter /\
    let width := fst (img_size img) in
    let height := snd (img_size img) in
    let content_stream := CONTENT_STREAM_TEMPLATE width height in
    let image_id := default (_id_stream (self w)) iid in
    let contents_id :=
      default match iid with
              | Some _ => _id_stream (self w)
              | None => _id_stream (self w) + 1
              end cid in
    sink w' =
      sink w +:+ header_bytes w +:+
      object_header image_id +:+
      image_dict_bytes width height color_space filter (String.length contents) +:+
      "stream" +:+ nl +:+ contents +:+ nl +:+ "endstream" +:+ nl +:+
      "endobj" +:+ nl +:+
      object_header contents_id +:+
      dict_bytes (entry_bytes "Length"
                    (pretty (Z.of_nat (String.length content_stream)))) +:+
      "stream" +:+ nl +:+ content_stream +:+ nl +:+ "endstream" +:+ nl +:+
      "endobj" +:+ nl +:+
      rest.
Proof.
  intros H. destruct (out (self w)) eqn:O.
  2:{ destruct (write_image_page_closed Image_open id contents cid iid mb pid w O)
        as (e & w'' & E & _). rewrite E in H. discriminate. }
  destruct (Image_open contents) as [e|img] eqn:D.
  { pose proof (write_image_page_undecodable Image_open w id contents cid iid mb
                  pid e O D) as F.
    rewrite H in F. discriminate. }
  destruct (MODE2COLOR_SPACE !! img_mode img) as [color_space|] eqn:Hm.
  2:{ destruct (write_image_page_lookup_raises Image_open w id contents cid iid mb
                  pid img O D (or_introl Hm)) as (k & w'' & E).
      rewrite E in H. discriminate. }
  destruct (FORMAT2FILTER !! img_format img) as [filter|] eqn:Hf.
  2:{ destruct (write_image_page_lookup_raises Image_open w id contents cid iid mb
                  pid img O D (or_intror Hf)) as (k & w'' & E).
      rewrite E in H. discriminate. }
  rewrite (write_image_page_prefix Image_open w id contents cid iid mb pid img
             color_space filter O D Hm Hf) in H.
  cbv zeta in H.
  match type of H with write_page ?a ?b ?c ?d ?e ?W = _ =>
    pose proof (keeps_extends_write_page (sink W) a b c d e W (extends_refl W)) as K
  end.
  rewrite H in K. destruct K as [rest K].
  exists img, color_space, filter, rest. repeat split; try assumption. cbv zeta.
  rewrite K. clear H K. open_world w. unfold object_written, after_header, header_bytes.
  destruct _pos0 as [|n], iid as [iid|]; cbn; unfold_layout; cbn; norm_str; str_eq.
Qed.

Lemma write_image_page_stream_lengths_witness :
  exists img color_space filter rest,
    sample_decoder "GIF" = inr img /\
    MODE2COLOR_SPACE !! img_mode img = Some color_space /\
    FORMAT2FILTER !! img_format img = Some filter /\
    let width := fst (img_size img) in
    let height := snd (img_size img) in
    let content_stream := CONTENT_STREAM_TEMPLATE width height in
    sink (snd (write_image_page sample_decoder None "GIF" None None None None
                 new_writer)) =
      sink new_writer +:+ header_bytes new_writer +:+
      object_header 1 +:+
      image_dict_bytes width height color_space filter (String.length "GIF") +:+
      "stream" +:+ nl +:+ "GIF" +:+ nl +:+ "endstream" +:+ nl +:+
      "endobj" +:+ nl +:+
      object_header 2 +:+
      dict_bytes (entry_bytes "Length"
                    (pretty (Z.of_nat (String.length content_stream)))) +:+
      "stream" +:+ nl +:+ content_stream +:+ nl +:+ "endstream" +:+ nl +:+
      "endobj" +:+ nl +:+
      rest.
Proof.
  apply (write_image_page_stream_lengths sample_decoder new_writer
           (snd (write_image_page sample_decoder None "GIF" None None None None
                   new_writer))
           None "GIF" None None None None 4).
  vm_compute. reflexivity.
Defined.

(** ** Offsets in the cross-reference table *)

Lemma xref_inv_init owned : xref_inv (PdfWriter_init owned).
Proof.
  split; [reflexivity |]. intros id offset H. cbn in H.
  rewrite lookup_empty in H. discriminate.
Qed.

Lemma xref_inv_emit w bs : xref_inv w -> xref_inv (emit bs w).
Proof.
  intros [Hp Hx]. destruct w as [[] s c l]. unfold xref_inv. cbn in *. split.
  - rewrite str_length_app. lia.
  - intros id offset H. destruct (Hx id offset H) as (before & after & E & L).
    exists before, (after +:+ bs). split; [| exact L].
    rewrite E, !str_app_assoc. reflexivity.
Qed.

Lemma xref_inv_object w id :
  xref_inv w ->
  xref_inv (emit (object_header id)
              (update (fun p => set_xrefs (<[id := _pos p]> (_xrefs p)) p) w)).
Proof.
  intros [Hp Hx]. destruct w as [[] s c l]. unfold xref_inv. cbn in *. split.
  - rewrite str_length_app. lia.
  - intros id' offset H. destruct (decide (id = id')) as [<-|Hne].
    + rewrite lookup_insert_eq in H. injection H as <-.
      exists s, "". split; [now rewrite str_app_nil_r | symmetry; exact Hp].
    + rewrite lookup_insert_ne in H by assumption.
      destruct (Hx id' offset H) as (before & after & E & L).
      exists before, (after +:+ object_header id). split; [| exact L].
      rewrite E, !str_app_assoc. reflexivity.
Qed.

Lemma xref_inv_close : keeps xref_inv close.
Proof.
  apply keeps_close; intros; try assumption.
  - now apply xref_inv_emit.
  - now apply xref_inv_object.
Qed.

Lemma caller_code_xref_inv dec A (m : M A) :
  caller_code dec A m -> keeps xref_inv m.
Proof.
  apply caller_code_keeps; [.. | exact xref_inv_close]; intros; try assumption.
  - now apply xref_inv_emit.
  - now apply xref_inv_object.
Qed.

(** C6. After any successful sequence of writer operations on a new
    writer, the offset recorded for an object id is the position, counted
    from the start of the document, of the first byte of that object's
    header [<id> 0 obj]. *)
Theorem xref_offset_is_object_position (Image_open : string -> exn + Image)
    (owned : bool) (A : Type) (m : M A) (o : outcome A) (w : world)
    (id : Z) (offset : nat) :
  caller_code Image_open A m ->
  m (PdfWriter_init owned) = (o, w) ->
  (forall e, o <> Raise e) ->
  _xrefs (self w) !! id = Some offset ->
  exists before after,
    sink w = before +:+ object_header id +:+ after /\
    String.length before = offset.
Proof.
  intros Hm E Ho Hx.
  pose proof (caller_code_xref_inv Image_open A m Hm _ (xref_inv_init owned)) as K.
  rewrite E in K.
  assert (Hw : xref_inv w).
  { destruct o as [a| |e]; [exact K | exact K |]. now destruct (Ho e). }
  exact (proj2 Hw id offset Hx).
Qed.

Lemma xref_offset_is_object_position_witness :
  exists before after,
    sink (snd ((write_page None None None None None ;; close) new_writer))
      = before +:+ object_header 2 +:+ after /\
    String.length before = 9%nat.
Proof.
  apply (xref_offset_is_object_position sample_decoder true unit
           (write_page None None None None None ;; close) (Ok tt)).
  - apply cc_bind; [apply cc_write_page | intros _; apply cc_close].
  - vm_compute. reflexivity.
  - discriminate.
  - vm_compute. reflexivity.
Defined.

(** ** Writers created over a sink *)

Lemma established_emit w bs :
  out (self w) = true -> established w -> established (emit bs w).
Proof. intros O _. left. now destruct w as [[]]. Qed.

Lemma established_close : keeps established close.
Proof.
  intros w Hw. destruct (out (self w)) eqn:O.
  - pose proof (close_open w O) as C. cbv zeta in C.
    destruct (close w) as [o w']. cbn [fst snd] in C.
    destruct C as (-> & _ & _ & _ & P & _). now right.
  - now rewrite (close_closed w O).
Qed.

(** Whatever a caller does with a writer created over a sink, the writer
    stays one with a sink or with written bytes. *)
Lemma caller_code_established dec owned A (m : M A) a w :
  caller_code dec A m ->
  m (PdfWriter_init owned) = (Ok a, w) ->
  established w.
Proof.
  intros Hm E.
  assert (K : keeps established m).
  { apply (caller_code_keeps established) with (dec := dec);
      [exact established_emit | .. | exact established_close | exact Hm].
    all: intros [[]]; intros; assumption || (left; assumption). }
  specialize (K (PdfWriter_init owned) (or_introl eq_refl)).
  now rewrite E in K.
Qed.

(** ** The page tree under a parent reserved by the caller *)

Lemma reserved_emit r w bs : reserved r w -> reserved r (emit bs w).
Proof. intros H. destruct w as [[] ? ? ?]. exact H. Qed.

Lemma reserved_next r w :
  reserved r w -> reserved r (update (set_id_stream (_id_stream (self w) + 1)) w).
Proof.
  intros (Ho & Hr & Hi). destruct w as [[] ? ? ?]. unfold reserved. cbn in *.
  repeat split; [assumption | assumption | lia].
Qed.

Lemma keeps_reserved_do_call dec r parent c :
  keeps (reserved r) (do_call dec parent c).
Proof.
  destruct c; cbn [do_call];
    [apply keeps_write_page_parent | apply keeps_write_image_page_parent];
    intros; try assumption;
    first [ now apply reserved_emit | now apply reserved_next
          | destruct w as [[] ? ? ?]; assumption ].
Qed.

Lemma keeps_reserved_do_calls dec r parent cs :
  keeps (reserved r) (do_calls dec parent cs).
Proof.
  induction cs as [|c cs IH]; cbn [do_calls].
  - apply keeps_ret.
  - apply keeps_bind; [apply keeps_reserved_do_call | intros _; exact IH].
Qed.

(** C1 (as amended). A caller reserves an id with [next_object_id] while
    the writer has no tree root, and passes it as [parent_id] to every
    [write_page] and [write_image_page] call. Then the writer still has
    no tree root when [close] is called, and [close] emits exactly one
    page-tree object, directly after the header if that is still due and
    followed by the catalog that points to it; its id is the next id of
    the allocator at that moment, which is greater than the reserved id
    that the pages were given as parent. *)
Theorem reserved_parent_page_tree (Image_open : string -> exn + Image)
    (w w1 : world) (calls : list page_call) (reserved_id : Z) :
  out (self w) = true ->
  _page_tree_root_id (self w) = None ->
  (r <- next_object_id ;; do_calls Image_open r calls ;; ret r) w
    = (Ok reserved_id, w1) ->
  let tree_id := _id_stream (self w1) in
  let r2 := close w1 in
  let xrefs := _xrefs (self (snd r2)) in
  reserved_id < tree_id /\
  _page_tree_root_id (self w1) = None /\
  fst r2 = Ok tt /\
  _page_tree_root_id (self (snd r2)) = Some tree_id /\
  xrefs = <[tree_id + 1 := catalog_pos w1]>
            (<[tree_id := page_tree_pos w1]> (_xrefs (self w1))) /\
  sink (snd r2) =
    sink w1 +:+ header_bytes w1 +:+
    page_tree_bytes tree_id (_page_ids (self w1)) +:+
    catalog_bytes (tree_id + 1) tree_id +:+
    xref_bytes xrefs +:+
    trailer_bytes (Z.of_nat (size xrefs) + 1) (tree_id + 1) +:+
    startxref_bytes (xref_pos w1) +:+
    "%%EOF".
Proof.
  intros O R H.
  apply bind_Ok_inv in H as (r0 & w0 & E0 & H). cbv beta in H.
  apply bind_Ok_inv in H as ([] & w1' & E1 & H).
  cbn in H. injection H as <- <-.
  assert (J0 : reserved r0 w0).
  { unfold next_object_id in E0. cbn in E0. injection E0 as <- <-.
    destruct w as [[] ? ? ?]. unfold reserved. cbn in *.
    repeat split; [assumption | assumption | lia]. }
  pose proof (keeps_reserved_do_calls Image_open r0 r0 calls w0 J0) as K.
  rewrite E1 in K. destruct K as (O1 & R1 & I1).
  pose proof (close_open w1' O1) as C. cbv zeta in C.
  destruct C as (C1 & C2 & C3 & C4 & C5 & C6 & _).
  unfold close_bytes, closing_xrefs, page_tree_id, catalog_id in *.
  rewrite R1 in *. cbn [default from_option Datatypes.id] in *.
  cbv zeta. rewrite C3.
  repeat split; assumption.
Qed.

Lemma reserved_parent_page_tree_witness :
  let w1 := snd ((r <- next_object_id ;;
                  do_calls sample_decoder r [WritePage None None None None] ;;
                  ret r) new_writer) in
  1 < _id_stream (self w1) /\
  _page_tree_root_id (self w1) = None /\
  fst (close w1) = Ok tt /\
  _page_tree_root_id (self (snd (close w1))) = Some (_id_stream (self w1)).
Proof.
  cbv zeta.
  pose proof (reserved_parent_page_tree sample_decoder new_writer
                (snd ((r <- next_object_id ;;
                       do_calls sample_decoder r [WritePage None None None None] ;;
                       ret r) new_writer))
                [WritePage None None None None] 1
                eq_refl eq_refl) as H.
  cbv zeta in H.
  destruct H as (H1 & H2 & H3 & H4 & _); [vm_compute; reflexivity |].
  repeat split; assumption.
Defined.

(** C1 (as stated) fails: with the id 1 reserved and given as parent to
    the only page, [close] writes the page tree as object 3; no object 1
    is ever written, although the page refers to it. *)
Lemma reserved_parent_is_not_the_page_tree :
  let r := (r <- next_object_id ;;
            write_page None None None (Some r) None ;;
            close ;;
            ret r) new_writer in
  fst r = Ok 1 /\
  _page_tree_root_id (self (snd r)) = Some 3 /\
  _xrefs (self (snd r)) !! 1 = None /\
  sink (snd r) = "%PDF-1.7
2 0 obj
<<
/Type /Page
/Parent 1 0 R
>>
endobj
3 0 obj
<<
/Type /Pages
/Kids [2 0 R]
/Count 1
>>
endobj
4 0 obj
<<
/Type /Catalog
/Pages 3 0 R
>>
endobj
xref
0 1
0000000000 65535 f 
2 1
0000000009 00000 n 
3 1
0000000056 00000 n 
4 1
0000000113 00000 n 
trailer
<<
/Size 4
/Root 4 0 R
>>
startxref
162
%%EOF".
Proof. vm_compute. repeat split; reflexivity. Qed.

(** ** The trailer *)

(** C7 (as amended). [close] on an open writer ends the document with
    the trailer, the [startxref] section and the end-of-file marker, and
    the [Size] of the trailer is the number of entries of the
    cross-reference map, that is of distinct ids started as objects, plus
    1 for the free entry of id 0. The ids started are among the ids in
    use; [Size] counts all ids in use exactly when each of them was
    started as an object, and an id that was allocated but never started
    is not counted. *)
Theorem trailer_size_counts_started_objects (w : world) :
  out (self w) = true ->
  let r := close w in
  let xrefs := _xrefs (self (snd r)) in
  fst r = Ok tt /\
  (exists before,
     sink (snd r) =
       before +:+
       trailer_bytes (Z.of_nat (size xrefs) + 1) (catalog_id w) +:+
       startxref_bytes (xref_pos w) +:+
       "%%EOF") /\
  size xrefs = size (dom xrefs) /\
  dom xrefs ⊆ allocated_ids (snd r) /\
  (allocated_ids (snd r) ⊆ dom xrefs ->
   size xrefs = size (allocated_ids (snd r))).
Proof.
  intros O. pose proof (close_open w O) as C. cbv zeta in *.
  destruct C as (C1 & C2 & C3 & _).
  split; [exact C1 |]. split; [| split; [| split]].
  - exists (sink w +:+ header_bytes w +:+
            page_tree_bytes (page_tree_id w) (_page_ids (self w)) +:+
            catalog_bytes (catalog_id w) (page_tree_id w) +:+
            xref_bytes (closing_xrefs w)).
    rewrite C2, C3. unfold close_bytes. rewrite !str_app_assoc. reflexivity.
  - symmetry. apply size_dom.
  - unfold allocated_ids. set_solver.
  - intros Hsub. rewrite <- size_dom. f_equal.
    apply set_eq. intros x. split; [| apply Hsub].
    unfold allocated_ids. set_solver.
Qed.

Lemma trailer_size_counts_started_objects_witness :
  let r := close new_writer in
  fst r = Ok tt /\
  exists before,
    sink (snd r) =
      before +:+
      trailer_bytes (Z.of_nat (size (_xrefs (self (snd r)))) + 1)
        (catalog_id new_writer) +:+
      startxref_bytes (xref_pos new_writer) +:+
      "%%EOF".
Proof.
  cbv zeta.
  destruct (trailer_size_counts_started_objects new_writer eq_refl)
    as (H1 & H2 & _).
  split; assumption.
Defined.

(** C7 (as stated) fails: after [next_object_id()] and [close()] the
    ids 1, 2 and 3 have been allocated, of which 1 was never started;
    the trailer says [/Size 3], not 4. *)
Lemma trailer_size_ignores_unstarted_id :
  let r := (next_object_id ;; close) new_writer in
  fst r = Ok tt /\
  size (allocated_ids (snd r)) = 3%nat /\
  size (_xrefs (self (snd r))) = 2%nat /\
  sink (snd r) = "%PDF-1.7
2 0 obj
<<
/Type /Pages
/Kids []
/Count 0
>>
endobj
3 0 obj
<<
/Type /Catalog
/Pages 2 0 R
>>
endobj
xref
0 1
0000000000 65535 f 
2 1
0000000009 00000 n 
3 1
0000000061 00000 n 
trailer
<<
/Size 3
/Root 3 0 R
>>
startxref
110
%%EOF".
Proof. vm_compute. repeat split; reflexivity. Qed.

(** ** [start_object] after close *)

(** C10. A [start_object] call on a writer that [close] has closed
    raises [WriterClosedError] and leaves the sink as it is, but not the
    writer: before the failing write, the cross-reference map has bound
    the object id (the given one, or a newly allocated one) to the
    current position. *)
Theorem start_object_after_close_records_xref (A : Type) (w0 w : world)
    (id : option Z) (body : Z -> M A) :
  out (self w0) = true ->
  close w0 = (Ok tt, w) ->
  let id' := default (_id_stream (self w)) id in
  exists w',
    start_object id body w = (Raise WriterClosedError, w') /\
    sink w' = sink w /\
    _xrefs (self w') = <[id' := _pos (self w)]> (_xrefs (self w)) /\
    _xrefs (self w') !! id' = Some (_pos (self w)).
Proof.
  intros O E. pose proof (close_open w0 O) as C. cbv zeta in C.
  rewrite E in C. cbn [fst snd] in C.
  destruct C as (_ & _ & _ & C4 & C5 & _).
  destruct (start_object_closed id body w C4) as (w' & E' & S' & X').
  exists w'. specialize (X' C5).
  repeat split; try assumption.
  rewrite X'. apply lookup_insert_eq.
Qed.

Lemma start_object_after_close_records_xref_witness :
  _xrefs (self closed_sample) !! 99 = None /\
  exists w',
    start_object (Some 99) (fun _ => ret tt) closed_sample
      = (Raise WriterClosedError, w') /\
    sink w' = sink closed_sample /\
    _xrefs (self w') = <[99 := _pos (self closed_sample)]> (_xrefs (self closed_sample)) /\
    _xrefs (self w') !! 99 = Some (_pos (self closed_sample)).
Proof.
  split; [vm_compute; reflexivity |].
  apply (start_object_after_close_records_xref unit new_writer closed_sample
           (Some 99) (fun _ => ret tt) eq_refl).
  vm_compute. reflexivity.
Defined.

(** * Further properties

    Properties of the writer beyond those that the specification
    states: invariants that hold on every path, the complete effect of
    the operations on an open writer, and their behaviour on failure. *)

Section Always.

Variable I : world -> Prop.

Lemma always_ret {A} (a : A) : always I (ret a).
Proof. intros w Hw. exact Hw. Qed.

Lemma always_throw {A} e : always I (@throw A e).
Proof. intros w Hw. exact Hw. Qed.

Lemma always_return {A} : always I (@return_ A).
Proof. intros w Hw. exact Hw. Qed.

Lemma always_gets {A} (f : PdfWriter -> A) : always I (gets f).
Proof. intros w Hw. exact Hw. Qed.

Lemma always_eval {A} (r : exn + A) : always I (eval r).
Proof. intros w Hw. destruct r; exact Hw. Qed.

Lemma always_read_cell c : always I (read_cell c).
Proof. intros w Hw. exact Hw. Qed.

Lemma always_bind {A B} (m : M A) (k : A -> M B) :
  always I m -> (forall a, always I (k a)) -> always I (bind m k).
Proof.
  intros Hm Hk w Hw. specialize (Hm w Hw). unfold bind.
  destruct (m w) as [[a| |e] w1]; [| exact Hm | exact Hm].
  exact (Hk a w1 Hm).
Qed.

Lemma always_with {X A} (enter : M X) exit (body : X -> M A) :
  always I enter -> always I exit -> (forall x, always I (body x)) ->
  always I (with_ enter exit body).
Proof.
  intros He Hx Hb w Hw. specialize (He w Hw). unfold with_.
  destruct (enter w) as [[x| |e] w1]; [| exact He | exact He].
  specialize (Hb x w1 He).
  destruct (body x w1) as [[a| |e] w2]; [| | exact Hb];
    specialize (Hx w2 Hb);
    destruct (exit w2) as [[[]| |e] w3]; assumption.
Qed.

(** The same, when the body relies on what the scope yields. *)
Lemma always_with_yield {X A} (Q : X -> world -> Prop)
    (enter : M X) exit (body : X -> M A) :
  always I enter -> always I exit ->
  (forall w x w1, enter w = (Ok x, w1) -> Q x w1) ->
  (forall x w1, Q x w1 -> I w1 -> I (snd (body x w1))) ->
  always I (with_ enter exit body).
Proof.
  intros He Hx Hq Hb w Hw. specialize (He w Hw). unfold with_.
  destruct (enter w) as [[x| |e] w1] eqn:E; [| exact He | exact He].
  specialize (Hb x w1 (Hq w x w1 E) He).
  destruct (body x w1) as [[a| |e] w2]; [| | exact Hb];
    specialize (Hx w2 Hb);
    destruct (exit w2) as [[[]| |e] w3]; assumption.
Qed.

Lemma always_with_writer {A} (body : M A) :
  always I __enter__ -> always I __exit__ -> always I body ->
  always I (with_writer body).
Proof.
  intros He Hx Hb w Hw. specialize (He w Hw). unfold with_writer.
  destruct (__enter__ w) as [[[]| |e] w1]; [| exact He | exact He].
  specialize (Hb w1 He).
  destruct (body w1) as [o w2]. specialize (Hx w2 Hb).
  destruct (__exit__ w2) as [[[]| |e] w3]; assumption.
Qed.

Lemma always_for {X} (xs : list X) x0 body :
  (forall x, always I (body x)) -> always I (for_ xs x0 body).
Proof.
  intros Hb. revert x0. induction xs as [|x xs IH]; intros x0.
  - rewrite for__nil. apply always_ret.
  - rewrite for__cons. apply always_bind; [apply Hb | intros _; apply IH].
Qed.

Lemma always_for_each {X} (xs : list X) body :
  (forall x, always I (body x)) -> always I (for_each xs body).
Proof.
  intros Hb. induction xs as [|x xs IH].
  - rewrite for_each_nil. apply always_ret.
  - rewrite for_each_cons. apply always_bind; [apply Hb | intros _; apply IH].
Qed.

(** What the invariant has to tolerate: a successful write, a change of
    the closure cells, the allocation of an id, the addition to the page
    list of an id that has an offset, the recording of an offset, and
    the reservation of a tree root where there was none. *)
Hypothesis I_emit : forall w bs, out (self w) = true -> I w -> I (emit bs w).
Hypothesis I_cells : forall w cs, I w -> I (set_cells cs w).
Hypothesis I_id : forall w,
  I w -> I (update (set_id_stream (_id_stream (self w) + 1)) w).
Hypothesis I_page : forall w id,
  is_Some (_xrefs (self w) !! id) -> I w ->
  I (update (fun p => set_page_ids (_page_ids p ++ [id]) p) w).
Hypothesis I_xrefs : forall w id pos,
  I w -> I (update (fun p => set_xrefs (<[id := pos]> (_xrefs p)) p) w).
Hypothesis I_root : forall w r,
  I w -> truthy (_page_tree_root_id (self w)) = false ->
  I (update (set_page_tree_root_id (Some r)) w).

Lemma always__write v : always I (_write v).
Proof.
  intros w Hw. destruct (out (self w)) eqn:O.
  - destruct (as_ascii v) as [e|bs] eqn:E.
    + now rewrite (_write_raises w v e O E).
    + rewrite (_write_open w v bs O E). now apply I_emit.
  - now rewrite (_write_closed w v O).
Qed.

Lemma always__write_header : always I _write_header.
Proof.
  intros w Hw. unfold _write_header, bind, gets.
  destruct (_pos (self w) =? 0)%nat; [now apply always__write | exact Hw].
Qed.

Lemma always_next_object_id : always I next_object_id.
Proof. intros w Hw. cbn. now apply I_id. Qed.

Lemma always_new_cell b : always I (new_cell b).
Proof. intros w Hw. cbn. now apply (I_cells w). Qed.

Lemma always_write_cell c b : always I (write_cell c b).
Proof. intros w Hw. cbn. now apply (I_cells w). Qed.

Lemma always_modify_xrefs id pos :
  always I (modify (fun p => set_xrefs (<[id := pos]> (_xrefs p)) p)).
Proof. intros w Hw. cbn. now apply (I_xrefs w). Qed.

(** The parent of a page that was given none: the tree root, reserved on
    the spot when there is none yet. *)
Lemma always_page_tree_root :
  always I
    (root <- gets _page_tree_root_id ;;
     root <- (if truthy root then ret (default 0 root) else next_object_id) ;;
     modify (set_page_tree_root_id (Some root)) ;;
     ret root).
Proof.
  intros w Hw. cbn.
  destruct (truthy (_page_tree_root_id (self w))) eqn:T; cbn.
  - destruct w as [[o ow i ps [r|] p x] s c cs]; [exact Hw | discriminate].
  - apply (I_root (update (set_id_stream (_id_stream (self w) + 1)) w)).
    + now apply I_id.
    + destruct w as [[]]. exact T.
Qed.

Ltac always_auto :=
  repeat (cbv beta zeta;
    first
    [ apply always_page_tree_root
    | lazymatch goal with
      | |- always _ (bind _ _) => apply always_bind; [| intros ?]
      | |- always _ (with_ _ _ _) => apply always_with; [| | intros ?]
      | |- always _ (ret _) => apply always_ret
      | |- always _ (gets _) => apply always_gets
      | |- always _ (eval _) => apply always_eval
      | |- always _ (throw _) => apply always_throw
      | |- always _ (read_cell _) => apply always_read_cell
      | |- always _ (new_cell _) => apply always_new_cell
      | |- always _ (write_cell _ _) => apply always_write_cell
      | |- always _ (_write _) => apply always__write
      | |- always _ _write_header => apply always__write_header
      | |- always _ next_object_id => apply always_next_object_id
      | |- always _ (modify (fun p => set_xrefs _ p)) =>
          apply always_modify_xrefs
      | |- always _ (_write_ref _) => unfold _write_ref
      | |- always _ (start_object _ _) => unfold start_object
      | |- always _ (start_dict _) => unfold start_dict
      | |- always _ (start_dict_entry _ _) => unfold start_dict_entry
      | |- always _ (start_stream _) => unfold start_stream
      | |- always _ (start_array _) => unfold start_array
      | |- always _ (start_array_element _ _) => unfold start_array_element
      | |- always _ (for_ _ _ _) => apply always_for; intros ?
      | |- always _ (for_each _ _) => apply always_for_each; intros ?
      | |- always _ (match ?x with _ => _ end) => destruct x
      | |- always _ (if ?b then _ else _) => destruct b
      end ]).

Lemma always_start_array_element {A} c (body : M A) :
  always I body -> always I (start_array_element c body).
Proof. intros Hb. always_auto. exact Hb. Qed.

Lemma always_start_array {A} (body : nat -> M A) :
  (forall c, always I (body c)) -> always I (start_array body).
Proof. intros Hb. always_auto. apply Hb. Qed.

Lemma always_start_dict_entry {A} key (body : M A) :
  always I body -> always I (start_dict_entry key body).
Proof. intros Hb. always_auto. exact Hb. Qed.

Lemma always_start_dict {A} (body : M A) :
  always I body -> always I (start_dict body).
Proof. intros Hb. always_auto. exact Hb. Qed.

Lemma always_start_object {A} id (body : Z -> M A) :
  (forall id', always I (body id')) -> always I (start_object id body).
Proof. intros Hb. always_auto. apply Hb. Qed.

Lemma always_start_stream {A} (body : M A) :
  always I body -> always I (start_stream body).
Proof. intros Hb. always_auto. exact Hb. Qed.

Lemma start_object_enter_yields id w x w1 :
  start_object_enter id w = (Ok x, w1) -> is_Some (_xrefs (self w1) !! x).
Proof.
  intros E. destruct (out (self w)) eqn:O.
  - rewrite (start_object_enter_open id w O) in E. cbv zeta in E.
    injection E as <- <-.
    destruct id, (after_header w) as [[]]; cbn; rewrite lookup_insert_eq; eauto.
  - destruct (start_object_enter_closed id w O) as (w' & E' & _).
    rewrite E' in E. discriminate.
Qed.

Lemma always_write_page id cid mb pid res :
  always I (write_page id cid mb pid res).
Proof.
  unfold write_page.
  apply always_bind; [apply always__write_header | intros _].
  apply always_bind; [destruct pid; always_auto | intros parent].
  match goal with |- always I (start_object ?i ?b) =>
    change (start_object i b) with
      (with_ (start_object_enter i) (_write (Bytes ("endobj" +:+ nl))) b)
  end.
  apply (always_with_yield (fun x w1 => is_Some (_xrefs (self w1) !! x))).
  - unfold start_object_enter. always_auto.
  - apply always__write.
  - intros w x w1. apply start_object_enter_yields.
  - intros x w1 Hq Hw1. unfold bind at 1, modify. cbv beta iota.
    match goal with |- I (snd (?rest ?W)) =>
      assert (Hr : always I rest) by always_auto;
      apply Hr
    end.
    now apply (I_page w1 x).
Qed.

Lemma always_write_image_page dec id c cid iid mb pid :
  always I (write_image_page dec id c cid iid mb pid).
Proof.
  unfold write_image_page. always_auto.
  apply always_write_page.
Qed.

(** Every program of the caller keeps, on every path, an invariant that
    the primitive changes of state and [close] keep. *)
Hypothesis I_close : always I close.

Lemma caller_code_always dec A (m : M A) :
  caller_code dec A m -> always I m.
Proof.
  induction 1.
  - apply always_ret.
  - now apply always_bind.
  - apply always_throw.
  - apply always_return.
  - apply always_next_object_id.
  - apply always__write.
  - always_auto.
  - now apply always_start_array.
  - now apply always_start_array_element.
  - now apply always_start_dict.
  - now apply always_start_dict_entry.
  - now apply always_start_object.
  - now apply always_start_stream.
  - apply always_write_page.
  - apply always_write_image_page.
  - exact I_close.
  - apply always__write_header.
  - apply always_with_writer; [apply always__write_header | exact I_close | assumption].
Qed.

End Always.

(** [close] keeps an invariant that does not depend on the tree root, on
    the sink being held or on its being closed. *)
Section AlwaysClose.

Variable I : world -> Prop.

Hypothesis I_emit : forall w bs, out (self w) = true -> I w -> I (emit bs w).
Hypothesis I_cells : forall w cs, I w -> I (set_cells cs w).
Hypothesis I_id : forall w,
  I w -> I (update (set_id_stream (_id_stream (self w) + 1)) w).
Hypothesis I_xrefs : forall w id pos,
  I w -> I (update (fun p => set_xrefs (<[id := pos]> (_xrefs p)) p) w).
Hypothesis I_root : forall w r,
  I w -> I (update (set_page_tree_root_id (Some r)) w).
Hypothesis I_sink_close : forall w,
  I w -> I (mkWorld (self w) (sink w) (S (sink_closes w)) (cells w)).
Hypothesis I_out : forall w, I w -> I (update (set_out false) w).

Lemma always_close : always I close.
Proof.
  assert (Hroot : forall r, always I (modify (set_page_tree_root_id (Some r)))).
  { intros r w Hw. cbn. now apply (I_root w). }
  assert (Hsc : always I out_close).
  { intros w Hw. cbn. now apply I_sink_close. }
  assert (Hout : always I (modify (set_out false))).
  { intros w Hw. cbn. now apply (I_out w). }
  unfold close, _write_page_tree, _write_catalog, _write_xrefs, _write_trailer,
    _write_startxref, _write_footer, write_entry.
  repeat first
    [ apply Hroot | apply Hsc | apply Hout
    | apply always__write; assumption
    | apply always__write_header; assumption
    | apply always_next_object_id; assumption
    | apply always_new_cell; assumption
    | apply always_write_cell; assumption
    | apply always_modify_xrefs; assumption
    | cbv beta zeta;
      lazymatch goal with
      | |- always _ (bind _ _) => apply always_bind; [| intros ?]
      | |- always _ (with_ _ _ _) => apply always_with; [| | intros ?]
      | |- always _ (ret _) => apply always_ret
      | |- always _ (gets _) => apply always_gets
      | |- always _ (eval _) => apply always_eval
      | |- always _ (read_cell _) => apply always_read_cell
      | |- always _ (_write_ref _) => unfold _write_ref
      | |- always _ (start_object _ _) => unfold start_object
      | |- always _ (start_dict _) => unfold start_dict
      | |- always _ (start_dict_entry _ _) => unfold start_dict_entry
      | |- always _ (start_array _) => unfold start_array
      | |- always _ (start_array_element _ _) => unfold start_array_element
      | |- always _ (for_each _ _) => apply always_for_each; intros ?
      | |- always _ (match ?x with _ => _ end) => destruct x
      | |- always _ (if ?b then _ else _) => destruct b
      end ].
Qed.

End AlwaysClose.

(** ** The position counter *)

Lemma position_counted_emit w bs :
  position_counted w -> position_counted (emit bs w).
Proof.
  unfold position_counted. destruct w as [[]]. cbn. intros ->.
  now rewrite str_length_app.
Qed.

Lemma caller_code_position_counted dec A (m : M A) :
  caller_code dec A m -> always position_counted m.
Proof.
  intros Hm. apply (caller_code_always position_counted) with (dec := dec);
    [ .. | apply always_close | exact Hm ].
  all: try (intros; now apply position_counted_emit).
  all: intros [[]]; intros; assumption.
Qed.

(** The position counter [_pos] is the number of bytes written to the
    sink, after whatever the caller did and however it ended. *)
Theorem position_is_bytes_written (Image_open : string -> exn + Image)
    (A : Type) (m : M A) (w : world) :
  caller_code Image_open A m ->
  _pos (self w) = String.length (sink w) ->
  _pos (self (snd (m w))) = String.length (sink (snd (m w))).
Proof. intros Hm Hw. exact (caller_code_position_counted _ _ m Hm w Hw). Qed.

Lemma position_is_bytes_written_witness :
  let m := (write_page None None None None (Some (Str e_acute)) ;; close) in
  fst (m new_writer) = Raise UnicodeEncodeError /\
  _pos (self (snd (m new_writer))) = String.length (sink (snd (m new_writer))).
Proof.
  split; [vm_compute; reflexivity |].
  apply (position_is_bytes_written sample_decoder unit
           (write_page None None None None (Some (Str e_acute)) ;; close) new_writer).
  - apply cc_bind; [apply cc_write_page | intros _; apply cc_close].
  - reflexivity.
Defined.

(** ** A closed writer *)

Lemma caller_code_frozen dec A (m : M A) w0 :
  caller_code dec A m -> always (frozen_at w0) m.
Proof.
  intros Hm. apply (caller_code_always (frozen_at w0)) with (dec := dec);
    [ .. | | exact Hm ].
  all: try (intros [[]]; unfold frozen_at; cbn; intros; intuition congruence).
  intros w Hw. rewrite close_closed; [exact Hw | apply Hw].
Qed.

(** Once the writer is closed, no program of the caller writes to the
    sink or closes it again, whether its calls fail or (like
    [next_object_id] and [close]) succeed. *)
Theorem closed_writer_is_frozen (Image_open : string -> exn + Image)
    (A : Type) (m : M A) (w : world) :
  caller_code Image_open A m ->
  out (self w) = false ->
  let w' := snd (m w) in
  out (self w') = false /\ sink w' = sink w /\
  sink_closes w' = sink_closes w /\ _pos (self w') = _pos (self w).
Proof.
  intros Hm O. apply (caller_code_frozen _ _ m w Hm w).
  unfold frozen_at. auto.
Qed.

Lemma closed_writer_is_frozen_witness :
  let m := (next_object_id ;;
            start_object None (fun _ => start_dict (_write (Bytes "/A 1"))) ;;
            close) in
  let w' := snd (m closed_sample) in
  out (self w') = false /\ sink w' = sink closed_sample /\
  sink_closes w' = sink_closes closed_sample /\
  _pos (self w') = _pos (self closed_sample).
Proof.
  apply (closed_writer_is_frozen sample_decoder unit
           (next_object_id ;;
            start_object None (fun _ => start_dict (_write (Bytes "/A 1"))) ;;
            close) closed_sample).
  - apply cc_bind; [apply cc_next_object_id | intros _].
    apply cc_bind; [| intros _; apply cc_close].
    apply cc_start_object. intros _. apply cc_start_dict. apply cc_write.
  - reflexivity.
Defined.

(** ** Closing the sink *)

Lemma close_keeps_owned o : always (fun w => owned (self w) = o) close.
Proof.
  apply always_close; intros [[]]; intros; assumption.
Qed.

Lemma caller_code_closes_as_owned dec A (m : M A) o n :
  caller_code dec A m -> always (closes_as_owned o n) m.
Proof.
  intros Hm. apply (caller_code_always (closes_as_owned o n)) with (dec := dec);
    [ .. | | exact Hm ].
  all: try (intros [[]]; unfold closes_as_owned; cbn; intros; assumption).
  intros w [Ho Hc]. destruct (out (self w)) eqn:O.
  - pose proof (close_open w O) as C. cbv zeta in C.
    destruct C as (_ & _ & _ & C4 & _ & _ & _ & _ & C9).
    pose proof (close_keeps_owned o w Ho) as Hown. cbv beta in Hown.
    split; [exact Hown |]. rewrite C4, C9, Ho, Hc. reflexivity.
  - rewrite close_closed by assumption. unfold closes_as_owned. cbn [snd].
    rewrite O. exact (conj Ho Hc).
Qed.

(** Over the life of a writer the sink is closed at most once: exactly
    once when the writer is closed and owns the sink, and never while it
    is open or when it does not own the sink. *)
Theorem sink_closed_once_if_owned (Image_open : string -> exn + Image)
    (A : Type) (m : M A) (w : world) :
  caller_code Image_open A m ->
  out (self w) = true ->
  let w' := snd (m w) in
  owned (self w') = owned (self w) /\
  sink_closes w' =
    if out (self w') then sink_closes w
    else if owned (self w) then S (sink_closes w) else sink_closes w.
Proof.
  intros Hm O.
  apply (caller_code_closes_as_owned _ _ m (owned (self w)) (sink_closes w) Hm w).
  split; [reflexivity | now rewrite O].
Qed.

Lemma sink_closed_once_if_owned_witness :
  let m := (write_page None None None None None ;; close ;; close) in
  let w' := snd (m new_writer) in
  owned (self w') = true /\
  sink_closes w' = if out (self w') then 0%nat else 1%nat.
Proof.
  apply (sink_closed_once_if_owned sample_decoder unit
           (write_page None None None None None ;; close ;; close)
           new_writer).
  - apply cc_bind; [apply cc_write_page | intros _].
    apply cc_bind; [apply cc_close | intros _; apply cc_close].
  - reflexivity.
Defined.

(** ** The id allocator *)

Lemma caller_code_id_stream dec A (m : M A) n :
  caller_code dec A m -> always (fun w => n <= _id_stream (self w)) m.
Proof.
  intros Hm.
  apply (caller_code_always (fun w => n <= _id_stream (self w))) with (dec := dec);
    [ .. | apply always_close | exact Hm ].
  all: intros [[]]; cbn; intros; lia || assumption.
Qed.

(** [next_object_id] never returns an id that it has returned before,
    whatever the caller did in between. *)
Theorem next_object_id_fresh (Image_open : string -> exn + Image)
    (A : Type) (k : Z -> M A) (w w' : world) (a b : Z) :
  (forall x, caller_code Image_open A (k x)) ->
  (x <- next_object_id ;; k x ;; y <- next_object_id ;; ret (x, y)) w
    = (Ok (a, b), w') ->
  a = _id_stream (self w) /\ a < b.
Proof.
  intros Hk H.
  apply bind_Ok_inv in H as (x & w1 & E1 & H). cbv beta in H.
  apply bind_Ok_inv in H as (r & w2 & E2 & H). cbv beta in H.
  apply bind_Ok_inv in H as (y & w3 & E3 & H). cbv beta in H.
  cbn in H. injection H as <- <- <-.
  unfold next_object_id in E1, E3. cbn in E1, E3.
  injection E1 as <- <-. injection E3 as <- <-.
  split; [reflexivity |].
  match type of E2 with ?m ?W = _ =>
    pose proof (caller_code_id_stream _ _ m (_id_stream (self w) + 1) (Hk _) W) as K
  end.
  rewrite E2 in K. cbn [snd] in K.
  assert (_id_stream (self w) + 1 <= _id_stream (self w2)); [| lia].
  apply K. destruct w as [[]]. cbn. lia.
Qed.

Lemma next_object_id_fresh_witness :
  exists w',
    (x <- next_object_id ;; write_page (Some 9) None None (Some x) None ;;
     y <- next_object_id ;; ret (x, y)) new_writer = (Ok (1, 2), w') /\
    1 = _id_stream (self new_writer) /\ 1 < 2.
Proof.
  eexists. split; [vm_compute; reflexivity |].
  apply (next_object_id_fresh sample_decoder Z
           (fun x => write_page (Some 9) None None (Some x) None)
           new_writer
           (snd ((x <- next_object_id ;; write_page (Some 9) None None (Some x) None ;;
                  y <- next_object_id ;; ret (x, y)) new_writer)) 1 2).
  - intros x. apply cc_write_page.
  - vm_compute. reflexivity.
Defined.

(** ** The document header *)

Lemma after_header_open w : out (self w) = true -> out (self (after_header w)) = true.
Proof. intros H. unfold after_header. now destruct w as [[? ? ? ? ? []]]. Qed.

Lemma _write_header_after_header w :
  out (self w) = true -> _write_header (after_header w) = (Ok tt, after_header w).
Proof.
  intros H. unfold after_header, _write_header, bind, gets.
  destruct w as [[o ow i ps r [|n] x] s c cs]; cbn in *; [| reflexivity].
  reflexivity.
Qed.

Lemma header_first_bind {A} (k : M A) w :
  out (self w) = true ->
  (_write_header ;; k) w = (_write_header ;; k) (after_header w).
Proof.
  intros H. unfold bind.
  now rewrite (_write_header_open w H), (_write_header_after_header w H).
Qed.

Lemma header_first_with {X A} (enter : M X) exit (body : X -> M A) w :
  out (self w) = true ->
  with_ (_write_header ;; enter) exit body w
  = with_ (_write_header ;; enter) exit body (after_header w).
Proof.
  intros H. unfold with_. now rewrite (header_first_bind enter w H).
Qed.

(** An opening call behaves as it does after the header. *)
Lemma opening_call_after_header dec A (op : M A) w :
  opening_call dec A op -> out (self w) = true -> op w = op (after_header w).
Proof.
  intros Hop H. destruct Hop.
  - unfold __enter__.
    now rewrite (_write_header_open w H), (_write_header_after_header w H).
  - unfold close, bind, gets. cbv beta iota.
    rewrite (after_header_open w H), H. cbv beta iota delta [negb].
    now rewrite (_write_header_open w H), (_write_header_after_header w H).
  - unfold with_writer, __enter__.
    now rewrite (_write_header_open w H), (_write_header_after_header w H).
  - apply (header_first_with _ _ _ w H).
  - apply (header_first_with _ _ _ w H).
  - apply (header_first_with _ _ _ w H).
  - apply (header_first_with _ _ _ w H).
  - apply (header_first_bind _ w H).
  - apply (header_first_bind _ w H).
Qed.

Lemma opening_call_caller_code dec A (op : M A) :
  opening_call dec A op -> caller_code dec A op.
Proof.
  destruct 1; try (constructor; assumption).
Qed.

Lemma caller_code_extends dec A (m : M A) s0 :
  caller_code dec A m -> always (extends s0) m.
Proof.
  intros Hm. apply (caller_code_always (extends s0)) with (dec := dec);
    [ .. | apply always_close | exact Hm ].
  all: try (intros; now apply extends_emit).
  all: intros [[]]; intros; assumption.
Qed.

(** Whatever call opens the document, and whatever follows it, the bytes
    of the header are the first that reach the sink (when it was still
    due, that is when nothing was written yet). *)
Theorem header_is_written_first (Image_open : string -> exn + Image)
    (A B : Type) (op : M A) (k : A -> M B) (w : world) :
  opening_call Image_open A op ->
  (forall a, caller_code Image_open B (k a)) ->
  out (self w) = true ->
  exists rest,
    sink (snd ((a <- op ;; k a) w)) = sink w +:+ header_bytes w +:+ rest.
Proof.
  intros Hop Hk O.
  assert (E : (a <- op ;; k a) w = (a <- op ;; k a) (after_header w)).
  { unfold bind. now rewrite (opening_call_after_header _ _ op w Hop O). }
  rewrite E.
  assert (Hc : caller_code Image_open B (a <- op ;; k a)).
  { apply cc_bind; [now apply opening_call_caller_code | exact Hk]. }
  destruct (caller_code_extends _ _ _ (sink w +:+ header_bytes w) Hc
              (after_header w)) as [rest Hr].
  - exists "". unfold after_header, header_bytes.
    destruct w as [[? ? ? ? ? []]]; cbn; now rewrite !str_app_nil_r.
  - exists rest. rewrite Hr. now rewrite str_app_assoc.
Qed.

Lemma header_is_written_first_witness :
  exists rest,
    sink (snd ((a <- start_object (A := unit) (Some 5) (fun _ => throw (ExternalError "ValueError")) ;;
                close) new_writer))
    = sink new_writer +:+ header_bytes new_writer +:+ rest.
Proof.
  apply (header_is_written_first sample_decoder unit unit
           (start_object (A := unit) (Some 5) (fun _ => throw (ExternalError "ValueError")))
           (fun _ => close) new_writer).
  - apply oc_start_object. intros _. apply cc_throw.
  - intros _. apply cc_close.
  - reflexivity.
Defined.

(** ** The tree root *)

Lemma caller_code_tree_root dec A (m : M A) r :
  caller_code dec A m -> always (tree_root r) m.
Proof.
  intros Hm. apply (caller_code_always (tree_root r)) with (dec := dec);
    [ .. | | exact Hm ].
  all: try (intros [[]]; unfold tree_root; cbn; intros; assumption).
  - intros [[]] r' [H1 H2] T. cbn in *. subst. cbn in T.
    destruct (Z.eqb_spec r 0); [contradiction | discriminate].
  - intros w [H1 H2]. destruct (out (self w)) eqn:O.
    + pose proof (close_open w O) as C. cbv zeta in C.
      destruct C as (_ & _ & _ & _ & _ & C6 & _).
      split; [| exact H2]. rewrite C6. unfold page_tree_id. now rewrite H1.
    + rewrite close_closed by assumption. now split.
Qed.

(** ** Pages *)

(** On an open writer, [write_page] with arguments that can be encoded
    succeeds and appends one page object (after the header, if that was
    still due): a dictionary with [Type], [Parent], and then
    [Resources], [MediaBox] and [Contents] for the arguments that were
    given, in this order. It records the object's offset and appends its
    id to the page list; without a [parent_id] the parent is the tree
    root, which is reserved by this call if there was none. *)
Theorem write_page_writes_page_object (w : world) (id : option Z)
    (contents_id : option contents_ids)
    (media_box : option (pyval * pyval * pyval * pyval))
    (parent_id : option Z) (resources : option pyval)
    (rbs : option string) (mbs : option (string * string * string * string)) :
  out (self w) = true -> encoded resources rbs -> encoded_box media_box mbs ->
  let page := page_object_id w id parent_id in
  let parent := page_parent_id w parent_id in
  let r := write_page id contents_id media_box parent_id resources w in
  (exists returned, fst r = Ok returned) /\
  sink (snd r) =
    sink w +:+ header_bytes w +:+ page_bytes page parent rbs mbs contents_id /\
  _page_ids (self (snd r)) = (_page_ids (self w) ++ [page])%list /\
  _xrefs (self (snd r)) =
    <[page := (_pos (self w) + String.length (header_bytes w))%nat]> (_xrefs (self w)) /\
  _page_tree_root_id (self (snd r)) =
    match parent_id with
    | Some _ => _page_tree_root_id (self w)
    | None => Some parent
    end.
Proof.
  intros H Hres Hmb.
  pose proof (write_page_open w id contents_id media_box parent_id resources
                rbs mbs H Hres Hmb) as P.
  cbv zeta in *. destruct P as (P1 & P2 & P3 & P4 & _ & _ & P7 & _).
  split; [eexists; exact P1 |]. repeat split; try assumption.
  rewrite P4. f_equal. unfold after_header, header_bytes.
  destruct w as [[? ? ? ? ? []]]; cbn; lia.
Qed.

Lemma write_page_writes_page_object_witness :
  let r := write_page None (Some (OneId 7))
             (Some (Int 0, Int 0, Int 612, Int 792)) None (Some (Str "<< >>"))
             new_writer in
  (exists returned, fst r = Ok returned) /\
  sink (snd r) =
    sink new_writer +:+ header_bytes new_writer +:+
    page_bytes 2 1 (Some "<< >>") (Some ("0", "0", "612", "792")) (Some (OneId 7)) /\
  _page_ids (self (snd r)) = [2] /\
  _xrefs (self (snd r)) = <[2 := 9%nat]> ∅ /\
  _page_tree_root_id (self (snd r)) = Some 1.
Proof.
  apply (write_page_writes_page_object new_writer None (Some (OneId 7))
           (Some (Int 0, Int 0, Int 612, Int 792)) None (Some (Str "<< >>"))
           (Some "<< >>") (Some ("0", "0", "612", "792"))).
  - reflexivity.
  - reflexivity.
  - repeat split; reflexivity.
Defined.

(** ** The tree root *)

(** Once a tree root is reserved, it stays the same on every path: every
    later page without a [parent_id] gets it as its parent, and [close]
    writes the page tree under it. *)
Theorem tree_root_is_kept (Image_open : string -> exn + Image)
    (A : Type) (m : M A) (w : world) (r : Z) :
  caller_code Image_open A m ->
  _page_tree_root_id (self w) = Some r -> r <> 0 ->
  let w' := snd (m w) in
  _page_tree_root_id (self w') = Some r /\
  page_parent_id w' None = r /\
  page_tree_id w' = r.
Proof.
  intros Hm H1 H2.
  destruct (caller_code_tree_root _ _ m r Hm w (conj H1 H2)) as [K1 K2].
  cbv zeta. unfold page_parent_id, page_tree_id. rewrite K1. cbn.
  destruct (Z.eqb_spec r 0); [contradiction |]. cbn. auto.
Qed.

Lemma tree_root_is_kept_witness :
  let w := snd (write_page None None None None None new_writer) in
  let m := (start_object (Some 1) (fun _ => _write (Str e_acute)) ;;
            write_page None None None None None) in
  let w' := snd (m w) in
  _page_tree_root_id (self w') = Some 1 /\
  page_parent_id w' None = 1 /\
  page_tree_id w' = 1.
Proof.
  apply (tree_root_is_kept sample_decoder Z
           (start_object (Some 1) (fun _ => _write (Str e_acute)) ;;
            write_page None None None None None)
           (snd (write_page None None None None None new_writer)) 1).
  - apply cc_bind; [| intros _; apply cc_write_page].
    apply cc_start_object. intros _. apply cc_write.
  - reflexivity.
  - discriminate.
Defined.

Lemma position_nonzero_emit w bs : _pos (self w) <> 0%nat -> _pos (self (emit bs w)) <> 0%nat.
Proof. destruct w as [[]]. cbn. lia. Qed.

Lemma caller_code_position_nonzero dec A (m : M A) :
  caller_code dec A m -> always (fun w => _pos (self w) <> 0%nat) m.
Proof.
  intros Hm.
  apply (caller_code_always (fun w => _pos (self w) <> 0%nat)) with (dec := dec);
    [ .. | apply always_close | exact Hm ].
  all: try (intros; now apply position_nonzero_emit).
  all: intros [[]]; intros; assumption.
Qed.

(** The pages written without a [parent_id] and the page tree agree:
    the first such page reserves the tree root and refers to it as its
    parent, and whatever the caller does afterwards, [close] writes the
    page tree object under that id, with the catalog pointing to it. *)
Theorem page_parent_is_the_page_tree (Image_open : string -> exn + Image)
    (A : Type) (m : M A) (w : world) (id : option Z)
    (contents_id : option contents_ids)
    (media_box : option (pyval * pyval * pyval * pyval)) (resources : option pyval)
    (rbs : option string) (mbs : option (string * string * string * string)) :
  out (self w) = true -> _id_stream (self w) <> 0 ->
  encoded resources rbs -> encoded_box media_box mbs ->
  caller_code Image_open A m ->
  let parent := page_parent_id w None in
  let w1 := snd (write_page id contents_id media_box None resources w) in
  let w2 := snd (m w1) in
  out (self w2) = true ->
  sink w1 =
    sink w +:+ header_bytes w +:+
    page_bytes (page_object_id w id None) parent rbs mbs contents_id /\
  exists rest,
    sink (snd (close w2)) =
      sink w2 +:+
      page_tree_bytes parent (_page_ids (self w2)) +:+
      catalog_bytes (catalog_id w2) parent +:+ rest.
Proof.
  intros H Hid Hres Hmb Hm. cbv zeta. intros O2.
  pose proof (write_page_open w id contents_id media_box None resources
                rbs mbs H Hres Hmb) as P.
  cbv zeta in P. destruct P as (_ & P2 & _ & _ & _ & P6 & P7 & _).
  split; [exact P2 |].
  set (w1 := snd (write_page id contents_id media_box None resources w)) in *.
  assert (T1 : tree_root (page_parent_id w None) w1).
  { split; [exact P7 |]. unfold page_parent_id.
    destruct (_page_tree_root_id (self w)) as [r|]; cbn; [| exact Hid].
    destruct (Z.eqb_spec r 0); cbn; [exact Hid | assumption]. }
  destruct (caller_code_tree_root _ _ m _ Hm w1 T1) as [K1 K2].
  pose proof (caller_code_position_nonzero _ _ m Hm w1 P6) as N2. cbv beta in N2.
  pose proof (close_open (snd (m w1)) O2) as C. cbv zeta in C.
  destruct C as (_ & C2 & _).
  rewrite C2. unfold close_bytes, page_tree_id, header_bytes. rewrite K1.
  cbn [default from_option Datatypes.id].
  destruct (_pos (self (snd (m w1)))) eqn:E; [congruence |]. cbn [Nat.eqb].
  eexists. cbn [String.append]. reflexivity.
Qed.

Lemma page_parent_is_the_page_tree_witness :
  let w1 := snd (write_page None None None None None new_writer) in
  let w2 := snd (write_page None None None None None w1) in
  sink w1 =
    sink new_writer +:+ header_bytes new_writer +:+ page_bytes 2 1 None None None /\
  exists rest,
    sink (snd (close w2)) =
      sink w2 +:+ page_tree_bytes 1 (_page_ids (self w2)) +:+
      catalog_bytes (catalog_id w2) 1 +:+ rest.
Proof.
  apply (page_parent_is_the_page_tree sample_decoder Z
           (write_page None None None None None) new_writer
           None None None None None None).
  - reflexivity.
  - discriminate.
  - exact Logic.I.
  - exact Logic.I.
  - apply cc_write_page.
  - vm_compute. reflexivity.
Defined.

(** ** Closing *)

Lemma close_succeeds w : fst (close w) = Ok tt.
Proof.
  destruct (out (self w)) eqn:O.
  - apply (close_open w O).
  - now rewrite close_closed.
Qed.

(** [close] on an open writer succeeds and completes the document: it
    appends the header if that is still due, the page tree with the
    pages in the order in which they were written and their number, the
    catalog that points to the page tree, the cross-reference table of
    all objects started (these two included), the trailer whose [Root]
    is the catalog, the [startxref] section and the end-of-file marker;
    it leaves the writer closed. *)
Theorem close_writes_the_document (w : world) :
  out (self w) = true ->
  let r := close w in
  let tree := page_tree_id w in
  let catalog := catalog_id w in
  let xrefs := _xrefs (self (snd r)) in
  fst r = Ok tt /\
  out (self (snd r)) = false /\
  xrefs = <[catalog := catalog_pos w]> (<[tree := page_tree_pos w]> (_xrefs (self w))) /\
  sink (snd r) =
    sink w +:+ header_bytes w +:+
    page_tree_bytes tree (_page_ids (self w)) +:+
    catalog_bytes catalog tree +:+
    xref_bytes xrefs +:+
    trailer_bytes (Z.of_nat (size xrefs) + 1) catalog +:+
    startxref_bytes (xref_pos w) +:+
    "%%EOF".
Proof.
  intros O. pose proof (close_open w O) as C. cbv zeta in *.
  destruct C as (C1 & C2 & C3 & C4 & _).
  repeat split; try assumption.
  rewrite C2, C3. unfold close_bytes, closing_xrefs.
  now rewrite ?str_app_assoc.
Qed.

Lemma close_writes_the_document_witness :
  let w := snd (write_page None None None None None new_writer) in
  let r := close w in
  fst r = Ok tt /\
  out (self (snd r)) = false /\
  _xrefs (self (snd r)) = <[3 := catalog_pos w]> (<[1 := page_tree_pos w]> (_xrefs (self w))) /\
  sink (snd r) =
    sink w +:+ header_bytes w +:+
    page_tree_bytes 1 [2] +:+
    catalog_bytes 3 1 +:+
    xref_bytes (_xrefs (self (snd r))) +:+
    trailer_bytes (Z.of_nat (size (_xrefs (self (snd r)))) + 1) 3 +:+
    startxref_bytes (xref_pos w) +:+
    "%%EOF".
Proof.
  apply (close_writes_the_document
           (snd (write_page None None None None None new_writer))).
  reflexivity.
Defined.

(** When the position counter is right (as it is in every writer
    created over an empty sink), the number that [close] writes in the
    [startxref] section is the offset at which the cross-reference table
    starts, that is of the keyword [xref]. *)
Theorem startxref_is_offset_of_xref (w : world) :
  out (self w) = true ->
  _pos (self w) = String.length (sink w) ->
  exists before entries trailer,
    sink (snd (close w)) =
      before +:+ ("xref" +:+ nl +:+ entries) +:+ trailer +:+
      ("startxref" +:+ nl +:+ pretty (Z.of_nat (String.length before)) +:+ nl) +:+
      "%%EOF".
Proof.
  intros O P. pose proof (close_open w O) as C. cbv zeta in C.
  destruct C as (_ & C2 & _).
  exists (sink w +:+ header_bytes w +:+
          page_tree_bytes (page_tree_id w) (_page_ids (self w)) +:+
          catalog_bytes (catalog_id w) (page_tree_id w)).
  exists (xref_entry_bytes 0 0 65535 false +:+
          xref_entries_bytes (sorted_items (closing_xrefs w))).
  exists (trailer_bytes (Z.of_nat (size (closing_xrefs w)) + 1) (catalog_id w)).
  rewrite C2. unfold close_bytes.
  replace (String.length (sink w +:+ header_bytes w +:+
             page_tree_bytes (page_tree_id w) (_page_ids (self w)) +:+
             catalog_bytes (catalog_id w) (page_tree_id w)))
    with (xref_pos w).
  - unfold xref_bytes, startxref_bytes. rewrite !str_app_assoc. reflexivity.
  - unfold xref_pos, catalog_pos, page_tree_pos.
    rewrite !str_length_app. rewrite <- P.
    unfold after_header, header_bytes.
    destruct w as [[? ? ? ? ? []]]; cbn; lia.
Qed.

Lemma startxref_is_offset_of_xref_witness :
  exists before entries trailer,
    sink (snd (close new_writer)) =
      before +:+ ("xref" +:+ nl +:+ entries) +:+ trailer +:+
      ("startxref" +:+ nl +:+ pretty (Z.of_nat (String.length before)) +:+ nl) +:+
      "%%EOF".
Proof.
  apply (startxref_is_offset_of_xref new_writer); reflexivity.
Defined.

(** ** The writer as a context manager *)

(** A [with] block over an open writer always completes the document:
    the header is written before the block, and [close] runs after it
    however the block ended, also when it raised; the block's result or
    exception is what the statement ends with. *)
Theorem with_writer_completes_the_document (A : Type) (body : M A) (w : world) :
  out (self w) = true ->
  let b := body (after_header w) in
  let r := with_writer body w in
  r = (fst b, snd (close (snd b))) /\
  out (self (snd r)) = false /\
  (out (self (snd b)) = true ->
   sink (snd r) = sink (snd b) +:+ close_bytes (snd b)).
Proof.
  intros O. cbv zeta. unfold with_writer, __enter__, __exit__.
  rewrite (_write_header_open w O).
  destruct (body (after_header w)) as [o w2]. cbn [fst snd].
  pose proof (close_succeeds w2) as S.
  destruct (close w2) as [c w3] eqn:E. cbn [fst snd] in *. subst c.
  split; [reflexivity |]. split.
  - apply (close_Ok_closed w2 w3 E).
  - intros O2. pose proof (close_open w2 O2) as C. cbv zeta in C.
    rewrite E in C. apply C.
Qed.

Lemma with_writer_completes_the_document_witness :
  let body : M unit := throw (ExternalError "ValueError") in
  let b := body (after_header new_writer) in
  let r := with_writer body new_writer in
  r = (fst b, snd (close (snd b))) /\
  out (self (snd r)) = false /\
  (out (self (snd b)) = true ->
   sink (snd r) = sink (snd b) +:+ close_bytes (snd b)).
Proof.
  apply (with_writer_completes_the_document unit
           (throw (ExternalError "ValueError")) new_writer).
  reflexivity.
Defined.

(** ** Image pages, complete *)

Lemma write_image_page_undecodable_state dec w id c cid iid mb pid e :
  out (self w) = true -> dec c = inl e ->
  write_image_page dec id c cid iid mb pid w = (Raise e, after_header w).
Proof.
  intros O D. unfold write_image_page.
  unfold bind at 1. rewrite (_write_header_open w O).
  cbv zeta. unfold bind at 1. rewrite D. reflexivity.
Qed.

(** When the decoder rejects the data, [write_image_page] on an open
    writer fails with the decoder's exception; apart from the header, if
    that was still due, nothing is written, and no id is allocated, no
    offset recorded and no page added. *)
Theorem write_image_page_undecodable_writes_nothing
    (Image_open : string -> exn + Image) (w : world)
    (id : option Z) (contents : string) (contents_id image_id : option Z)
    (media_box : option (pyval * pyval * pyval * pyval)) (parent_id : option Z)
    (e : exn) :
  out (self w) = true -> Image_open contents = inl e ->
  let r := write_image_page Image_open id contents contents_id image_id
             media_box parent_id w in
  fst r = Raise e /\
  sink (snd r) = sink w +:+ header_bytes w /\
  _id_stream (self (snd r)) = _id_stream (self w) /\
  _xrefs (self (snd r)) = _xrefs (self w) /\
  _page_ids (self (snd r)) = _page_ids (self w) /\
  _page_tree_root_id (self (snd r)) = _page_tree_root_id (self w).
Proof.
  intros O D. cbv zeta.
  rewrite (write_image_page_undecodable_state _ w id contents contents_id
             image_id media_box parent_id e O D).
  unfold after_header, header_bytes.
  destruct w as [[? ? ? ? ? []]]; cbn; rewrite ?str_app_nil_r; repeat split; reflexivity.
Qed.

Lemma write_image_page_undecodable_writes_nothing_witness :
  let r := write_image_page sample_decoder None "not an image" None None None None
             new_writer in
  fst r = Raise (ExternalError "UnidentifiedImageError") /\
  sink (snd r) = sink new_writer +:+ header_bytes new_writer /\
  _id_stream (self (snd r)) = 1 /\
  _xrefs (self (snd r)) = ∅ /\
  _page_ids (self (snd r)) = [] /\
  _page_tree_root_id (self (snd r)) = None.
Proof.
  apply (write_image_page_undecodable_writes_nothing sample_decoder new_writer
           None "not an image" None None None None
           (ExternalError "UnidentifiedImageError")); reflexivity.
Defined.

Lemma image_resources_ascii image_id :
  as_ascii (Str (image_resources image_id)) = inr (image_resources image_id).
Proof. apply as_ascii_Str. unfold image_resources. solve_is_ascii. Qed.

Lemma write_image_page_open
    (Image_open : string -> exn + Image) (w : world)
    (id : option Z) (contents : string) (contents_id image_id : option Z)
    (media_box : option (pyval * pyval * pyval * pyval)) (parent_id : option Z)
    (img : Image) (color_space filter : string)
    (mbs : string * string * string * string) :
  out (self w) = true -> Image_open contents = inr img ->
  MODE2COLOR_SPACE !! img_mode img = Some color_space ->
  FORMAT2FILTER !! img_format img = Some filter ->
  let width := fst (img_size img) in
  let height := snd (img_size img) in
  encoded_box
    (Some (default (Int 0, Int 0, Int width, Int height) media_box)) (Some mbs) ->
  let image := image_object_id w image_id in
  let content := content_object_id w image_id contents_id in
  let parent := image_page_parent_id w image_id contents_id parent_id in
  let page := image_page_object_id w id image_id contents_id parent_id in
  let r := write_image_page Image_open id contents contents_id image_id
             media_box parent_id w in
  fst r = Ok page /\
  sink (snd r) =
    sink w +:+ header_bytes w +:+
    image_object_bytes image width height color_space filter contents +:+
    content_object_bytes content (CONTENT_STREAM_TEMPLATE width height) +:+
    page_bytes page parent (Some (image_resources image)) (Some mbs)
      (Some (OneId content)) /\
  _page_ids (self (snd r)) = (_page_ids (self w) ++ [page])%list.
Proof.
  intros O D Hm Hf. cbv zeta. intros Hmb.
  rewrite (write_image_page_prefix Image_open w id contents contents_id image_id
             media_box parent_id img color_space filter O D Hm Hf).
  cbv zeta.
  match goal with |- context [write_page ?a ?b ?c ?d ?e ?W] =>
    assert (OW : out (self W) = true)
      by (unfold object_written, after_header;
          destruct w as [[? ? ? ? ? []]], image_id, contents_id; cbn in *; assumption);
    pose proof (write_page_open W a b c d e
                  (Some (image_resources (default (_id_stream (self w)) image_id)))
                  (Some mbs) OW (image_resources_ascii _)) as P
  end.
  cbv zeta in P.
  destruct P as (P1 & P2 & P3 & _).
  { destruct media_box; exact Hmb. }
  cbn [page_return] in P1. rewrite P1, P2, P3. clear P1 P2 P3 OW.
  unfold image_page_object_id, image_page_parent_id, image_page_id_stream,
    image_object_id, content_object_id, page_object_id, page_parent_id,
    page_id_stream, object_written, after_header, header_bytes,
    image_object_bytes, content_object_bytes.
  destruct w as [[o ow i ps r [|n] x] s c cs], image_id as [iid|], contents_id as [cid|];
    cbn [self _id_stream _page_tree_root_id _page_ids _pos sink Nat.eqb
         default from_option Datatypes.id update emit set_xrefs set_id_stream set_pos
         out owned _xrefs sink_closes cells];
    rewrite ?Z.add_0_r, ?str_app_nil_r, ?str_app_assoc;
    repeat split; reflexivity.
Qed.

(** On an open writer, [write_image_page] for an image of a recognized
    mode and format succeeds and appends three objects: the image (its
    dictionary and the data as its stream), the content stream that
    draws it, and the page, whose [Resources] name the image as [/Img],
    whose [Contents] is the content stream and whose [MediaBox] is the
    one given or else [0 0 width height]. It returns the id of the page
    object, which is the id it appends to the page list. *)
Theorem write_image_page_writes_three_objects
    (Image_open : string -> exn + Image) (w : world)
    (id : option Z) (contents : string) (contents_id image_id : option Z)
    (media_box : option (pyval * pyval * pyval * pyval)) (parent_id : option Z)
    (img : Image) (color_space filter : string)
    (mbs : string * string * string * string) :
  out (self w) = true -> Image_open contents = inr img ->
  MODE2COLOR_SPACE !! img_mode img = Some color_space ->
  FORMAT2FILTER !! img_format img = Some filter ->
  let width := fst (img_size img) in
  let height := snd (img_size img) in
  encoded_box
    (Some (default (Int 0, Int 0, Int width, Int height) media_box)) (Some mbs) ->
  let image := image_object_id w image_id in
  let content := content_object_id w image_id contents_id in
  let parent := image_page_parent_id w image_id contents_id parent_id in
  let page := image_page_object_id w id image_id contents_id parent_id in
  let r := write_image_page Image_open id contents contents_id image_id
             media_box parent_id w in
  fst r = Ok page /\
  sink (snd r) =
    sink w +:+ header_bytes w +:+
    image_object_bytes image width height color_space filter contents +:+
    content_object_bytes content (CONTENT_STREAM_TEMPLATE width height) +:+
    page_bytes page parent (Some (image_resources image)) (Some mbs)
      (Some (OneId content)) /\
  _page_ids (self (snd r)) = (_page_ids (self w) ++ [page])%list.
Proof.
  intros O D Hm Hf. cbv zeta. intros Hmb.
  exact (write_image_page_open Image_open w id contents contents_id image_id
           media_box parent_id img color_space filter mbs O D Hm Hf Hmb).
Qed.

Lemma write_image_page_writes_three_objects_witness :
  let r := write_image_page sample_decoder None "GIF?" None None None None
             new_writer in
  fst r = Ok 4 /\
  sink (snd r) =
    sink new_writer +:+ header_bytes new_writer +:+
    image_object_bytes 1 2 3 "/DeviceGray" "/DCTDecode" "GIF?" +:+
    content_object_bytes 2 (CONTENT_STREAM_TEMPLATE 2 3) +:+
    page_bytes 4 3 (Some (image_resources 1)) (Some ("0", "0", "2", "3"))
      (Some (OneId 2)) /\
  _page_ids (self (snd r)) = [4].
Proof.
  apply (write_image_page_writes_three_objects sample_decoder new_writer
           None "GIF?" None None None None
           (mkImage (2, 3) "L" "JPEG") "/DeviceGray" "/DCTDecode"
           ("0", "0", "2", "3")).
  - reflexivity.
  - reflexivity.
  - vm_compute. reflexivity.
  - vm_compute. reflexivity.
  - repeat split; reflexivity.
Defined.

(** ** A page that cannot be encoded *)

Lemma run_bind_raise {A B} (m : M A) (k : A -> M B) w e w1 :
  m w = (Raise e, w1) -> bind m k w = (Raise e, w1).
Proof. intros E. unfold bind. now rewrite E. Qed.

Lemma run_with_raise {X A} (enter : M X) exit (body : X -> M A) w x w1 e w2 :
  enter w = (Ok x, w1) -> body x w1 = (Raise e, w2) ->
  with_ enter exit body w = (Raise e, w2).
Proof. intros E1 E2. unfold with_. now rewrite E1, E2. Qed.

(** [run] along the path on which a write fails to encode its argument. *)
Ltac run_raise :=
  cbv beta;
  lazymatch goal with
  | |- bind _ _ _ = _ =>
      first [ eapply run_bind; [solve [run] | run_raise]
            | eapply run_bind_raise; run_raise ]
  | |- with_ _ _ _ _ = _ => eapply run_with_raise; [solve [run] | run_raise]
  | |- _write _ _ = _ => eapply _write_raises; [reflexivity | eassumption]
  | |- start_dict_entry _ _ _ = _ => unfold start_dict_entry; run_raise
  | |- start_dict _ _ = _ => unfold start_dict; run_raise
  | |- start_object _ _ _ = _ => unfold start_object; run_raise
  | |- (match _ with _ => _ end) _ = _ => progress pure_cbn; run_raise
  end.

(** [write_page] is not all or nothing. When its [resources] are a text
    with a character outside ASCII, the call on an open writer raises
    [UnicodeEncodeError] in the middle of the page object: the object's
    header, the opening of its dictionary and the entries before
    [Resources] are in the sink, the dictionary and the object are not
    closed, and the page is already in the page list and in the
    cross-reference map. *)
Theorem write_page_unencodable_resources (w : world) (id : option Z)
    (contents_id : option contents_ids)
    (media_box : option (pyval * pyval * pyval * pyval))
    (parent_id : option Z) (resources : string) :
  out (self w) = true -> is_ascii resources = false ->
  let page := page_object_id w id parent_id in
  let parent := page_parent_id w parent_id in
  let r := write_page id contents_id media_box parent_id (Some (Str resources)) w in
  fst r = Raise UnicodeEncodeError /\
  sink (snd r) =
    sink w +:+ header_bytes w +:+
    object_header page +:+ "<<" +:+ nl +:+
    entry_bytes "Type" "/Page" +:+
    entry_bytes "Parent" (ref_bytes parent) +:+
    "/Resources " /\
  _page_ids (self (snd r)) = (_page_ids (self w) ++ [page])%list /\
  _xrefs (self (snd r)) !! page =
    Some (_pos (self w) + String.length (header_bytes w))%nat.
Proof.
  intros H Hres.
  assert (Henc : as_ascii (Str resources) = inl UnicodeEncodeError).
  { cbn. now rewrite Hres. }
  destruct w as [[o ow ids ps root pos x] s c cs]. cbn in * |-. subst o.
  unfold page_object_id, page_parent_id, page_id_stream.
  cbn [self _page_tree_root_id _id_stream].
  destruct parent_id as [pid|];
    [| destruct (truthy root) eqn:Tr ].
  all: destruct pos as [|n], id as [id|].
  all: match goal with |- context [write_page ?a ?b ?c ?d ?e ?W] =>
         eassert (E : write_page a b c d e W = (Raise UnicodeEncodeError, _))
           by (unfold write_page; run_raise)
       end.
  all: rewrite E; cbv zeta; cbn [fst snd default from_option Datatypes.id].
  all: split; [reflexivity |].
  all: split; [cbn; unfold_layout; cbn; norm_str; str_eq |].
  all: split; [reflexivity |].
  all: cbn; rewrite lookup_insert_eq; f_equal; lia.
Qed.

Lemma write_page_unencodable_resources_witness :
  let r := write_page None None None None (Some (Str e_acute)) new_writer in
  fst r = Raise UnicodeEncodeError /\
  sink (snd r) =
    sink new_writer +:+ header_bytes new_writer +:+
    object_header 2 +:+ "<<" +:+ nl +:+
    entry_bytes "Type" "/Page" +:+
    entry_bytes "Parent" (ref_bytes 1) +:+
    "/Resources " /\
  _page_ids (self (snd r)) = [2] /\
  _xrefs (self (snd r)) !! 2 = Some 9%nat.
Proof.
  apply (write_page_unencodable_resources new_writer None None None None e_acute);
    reflexivity.
Defined.

(** ** The cross-reference table *)

#[local] Instance xref_le_total : Total xref_le.
Proof. intros x y. unfold xref_le. lia. Qed.

#[local] Instance xref_le_trans : Transitive xref_le.
Proof. intros x y z. unfold xref_le. lia. Qed.

Lemma StronglySorted_strict (l : list (Z * nat)) :
  StronglySorted xref_le l -> NoDup (l.*1) -> StronglySorted xref_lt l.
Proof.
  induction 1 as [|x l Hs IH Hx]; intros Hn; [constructor |].
  cbn in Hn. apply NoDup_cons in Hn as [Hnx Hn].
  constructor; [now apply IH |].
  apply Forall_forall. intros y Hy.
  rewrite Forall_forall in Hx. specialize (Hx y Hy).
  unfold xref_le in Hx. unfold xref_lt.
  assert (x.1 <> y.1); [| lia].
  intros E. apply Hnx. rewrite E. apply list_elem_of_fmap. now exists y.
Qed.

Lemma sorted_items_spec (xrefs : gmap Z nat) :
  StronglySorted xref_lt (sorted_items xrefs) /\
  (forall id offset,
     (id, offset) ∈ sorted_items xrefs <-> xrefs !! id = Some offset) /\
  length (sorted_items xrefs) = size xrefs.
Proof.
  unfold sorted_items.
  pose proof (merge_sort_Permutation xref_le (map_to_list xrefs)) as P.
  split; [| split].
  - apply StronglySorted_strict.
    + apply StronglySorted_merge_sort; apply _.
    + rewrite P. apply NoDup_fst_map_to_list.
  - intros id offset. rewrite P. apply elem_of_map_to_list.
  - rewrite (Permutation_length P). apply length_map_to_list.
Qed.

(** On an open writer [_write_xrefs] returns the position at which it
    starts and appends the keyword [xref], the free entry of id 0, and
    one entry for every object started: each id of the cross-reference
    map exactly once with its recorded offset, in strictly increasing
    order of the ids. *)
Theorem _write_xrefs_lists_objects_in_order (w : world) :
  out (self w) = true ->
  exists items,
    _write_xrefs w =
      (Ok (_pos (self w)),
       emit ("xref" +:+ nl +:+ xref_entry_bytes 0 0 65535 false +:+
             xref_entries_bytes items) w) /\
    StronglySorted xref_lt items /\
    (forall id offset,
       (id, offset) ∈ items <-> _xrefs (self w) !! id = Some offset) /\
    length items = size (_xrefs (self w)).
Proof.
  intros O. exists (sorted_items (_xrefs (self w))).
  split; [| apply sorted_items_spec].
  rewrite (_write_xrefs_open w O). reflexivity.
Qed.

Lemma _write_xrefs_lists_objects_in_order_witness :
  let w := snd (write_page None None None None None new_writer) in
  exists items,
    _write_xrefs w =
      (Ok (_pos (self w)),
       emit ("xref" +:+ nl +:+ xref_entry_bytes 0 0 65535 false +:+
             xref_entries_bytes items) w) /\
    StronglySorted xref_lt items /\
    (forall id offset,
       (id, offset) ∈ items <-> _xrefs (self w) !! id = Some offset) /\
    length items = size (_xrefs (self w)).
Proof.
  apply (_write_xrefs_lists_objects_in_order
           (snd (write_page None None None None None new_writer))).
  reflexivity.
Defined.

(** *** The width of an entry *)

Lemma zeros_length n : String.length (zeros n) = n.
Proof. induction n as [|n IH]; cbn; [reflexivity | now rewrite IH]. Qed.

Lemma pretty_N_go_length (k : nat) : forall (x : N) (s : string),
  (x < 10 ^ N.of_nat k)%N ->
  (String.length (pretty_N_go x s) <= k + String.length s)%nat.
Proof.
  induction k as [|k IH]; intros x s Hx.
  - assert (x = 0%N) as -> by (cbn in Hx; lia).
    rewrite pretty_N_go_0. lia.
  - destruct (decide (0 < x)%N) as [Hp|Hp].
    + rewrite pretty_N_go_step by assumption.
      etransitivity; [apply IH |].
      * apply N.Div0.div_lt_upper_bound.
        rewrite Nat2N.inj_succ, N.pow_succ_r' in Hx. lia.
      * cbn [String.length]. lia.
    + assert (x = 0%N) as -> by lia. rewrite pretty_N_go_0. lia.
Qed.

Lemma pretty_N_length (k : nat) (x : N) :
  (0 < k)%nat -> (x < 10 ^ N.of_nat k)%N -> (String.length (pretty x) <= k)%nat.
Proof.
  intros Hk Hx. unfold pretty, pretty_N. case_decide.
  - cbn. lia.
  - etransitivity; [apply (pretty_N_go_length k); assumption |]. cbn. lia.
Qed.

Lemma format_0d_length (width : nat) (x : N) :
  (0 < width)%nat -> (x < 10 ^ N.of_nat width)%N ->
  String.length (format_0d width x) = width.
Proof.
  intros Hk Hx. unfold format_0d. rewrite str_length_app, zeros_length.
  pose proof (pretty_N_length width x Hk Hx). lia.
Qed.

(** An entry of the cross-reference table is the id, [ 1] and a line of
    exactly 20 bytes, as long as the offset has at most ten digits and
    the generation number at most five (the fields are padded with
    zeros, never cut). *)
Theorem xref_entry_line_is_20_bytes (w : world) (id : Z) (offset : nat)
    (gen : N) (in_use : bool) :
  out (self w) = true ->
  (N.of_nat offset < 10 ^ 10)%N -> (gen < 10 ^ 5)%N ->
  write_entry id offset gen in_use w =
    (Ok tt, emit (pretty id +:+ " 1" +:+ nl +:+ xref_line offset gen in_use) w) /\
  String.length (xref_line offset gen in_use) = 20%nat.
Proof.
  intros O Ho Hg. split.
  - open_world w. etransitivity; [unfold write_entry; run |].
    unfold xref_line. cbn. world_eq.
  - unfold xref_line. rewrite !str_length_app.
    rewrite (format_0d_length 10), (format_0d_length 5) by (assumption || lia).
    destruct in_use; reflexivity.
Qed.

Lemma xref_entry_line_is_20_bytes_witness :
  write_entry 2 9 0 true new_writer =
    (Ok tt, emit (pretty 2 +:+ " 1" +:+ nl +:+ xref_line 9 0 true) new_writer) /\
  String.length (xref_line 9 0 true) = 20%nat.
Proof.
  apply (xref_entry_line_is_20_bytes new_writer 2 9 0 true).
  - reflexivity.
  - reflexivity.
  - reflexivity.
Defined.

(** ** Arrays *)

Lemma array_element_write (c : nat) v bs (b : bool) w :
  out (self w) = true -> cells w !! c = Some b -> as_ascii v = inr bs ->
  start_array_element c (_write v) w
    = (Ok tt, emit ((if b then "" else " ") +:+ bs)
                (set_cells (<[c := false]> (cells w)) w)).
Proof.
  intros H Hc Hv. destruct_world w. subst. unfold start_array_element.
  cbn. rewrite Hc. destruct b; cbn; rewrite Hv; cbn.
  - world_eq.
  - world_eq. symmetry. now apply list_insert_id.
Qed.

Lemma array_elements_loop vs : forall bs w (c : nat) (b : bool),
  out (self w) = true -> cells w !! c = Some b ->
  Forall2 (fun v b => as_ascii v = inr b) vs bs ->
  for_each vs (fun v => start_array_element c (_write v)) w
    = (Ok tt, emit (elems_bytes b bs)
                (set_cells (<[c := match vs with [] => b | _ => false end]> (cells w)) w)).
Proof.
  induction vs as [|v vs IH]; intros bs w c b H Hc Hvs.
  - apply Forall2_nil_inv_l in Hvs as ->.
    rewrite for_each_nil. change (elems_bytes b []) with "".
    rewrite list_insert_id by assumption.
    destruct_world w. cbn. world_eq.
  - apply Forall2_cons_inv_l in Hvs as (b0 & bs' & Hv & Hvs & ->).
    rewrite for_each_cons.
    change (elems_bytes b (b0 :: bs'))
      with ((if b then "" else " ") +:+ b0 +:+ elems_bytes false bs').
    unfold bind at 1.
    rewrite (array_element_write c v b0 b w H Hc Hv).
    rewrite (IH bs' _ c false).
    + destruct_world w. world_eq.
      destruct vs; apply list_insert_insert_eq.
    + destruct_world w. assumption.
    + destruct_world w. apply list_lookup_insert_eq.
      eapply lookup_lt_Some. eassumption.
    + assumption.
Qed.

(** An array whose elements are written one by one comes out as the
    elements between brackets, separated by single spaces, with no space
    after the opening or before the closing bracket; an array without
    elements is [[]]. *)
Theorem start_array_separates_elements (w : world) (vs : list pyval)
    (bs : list string) :
  out (self w) = true ->
  Forall2 (fun v b => as_ascii v = inr b) vs bs ->
  let r := start_array (fun start_array_element_ =>
             for_each vs (fun v =>
               start_array_element start_array_element_ (_write v))) w in
  fst r = Ok tt /\
  sink (snd r) = sink w +:+ header_bytes w +:+ array_bytes bs.
Proof.
  intros O Hvs. cbv zeta. unfold start_array.
  assert (E : exists w',
    with_ (_write_header ;; first <- new_cell true ;; _write (Bytes "[") ;; ret first)
      (_write (Bytes "]"))
      (fun c => for_each vs (fun v => start_array_element c (_write v))) w
    = (Ok tt, w') /\
    sink w' = sink w +:+ header_bytes w +:+ array_bytes bs).
  { destruct w as [[o ow ids ps root [|n] x] s c cs]; cbn in * |-; subst o.
    - eexists. split.
      + eapply run_with.
        * run.
        * etransitivity;
            [ eapply (array_elements_loop vs bs);
              [ reflexivity | cbn [cells]; apply list_lookup_middle; reflexivity
              | exact Hvs ]
            | cbn; reflexivity ].
        * run.
      + cbn. unfold header_bytes, array_bytes. cbn. norm_str. reflexivity.
    - eexists. split.
      + eapply run_with.
        * run.
        * etransitivity;
            [ eapply (array_elements_loop vs bs);
              [ reflexivity | cbn [cells]; apply list_lookup_middle; reflexivity
              | exact Hvs ]
            | cbn; reflexivity ].
        * run.
      + cbn. unfold header_bytes, array_bytes. cbn. norm_str. reflexivity. }
  destruct E as (w' & E & S). rewrite E. auto.
Qed.

Lemma start_array_separates_elements_witness :
  let r := start_array (fun start_array_element_ =>
             for_each [Int 0; Str "/Name"; Bytes "(s)"] (fun v =>
               start_array_element start_array_element_ (_write v))) new_writer in
  fst r = Ok tt /\
  sink (snd r) =
    sink new_writer +:+ header_bytes new_writer +:+ array_bytes ["0"; "/Name"; "(s)"].
Proof.
  apply (start_array_separates_elements new_writer
           [Int 0; Str "/Name"; Bytes "(s)"] ["0"; "/Name"; "(s)"]).
  - reflexivity.
  - repeat constructor.
Defined.

(** ** The images that are accepted *)

Lemma MODE2COLOR_SPACE_lookup mode :
  is_Some (MODE2COLOR_SPACE !! mode) <-> mode = "L" \/ mode = "RGB".
Proof.
  unfold MODE2COLOR_SPACE. split.
  - intros [v Hv]. apply lookup_insert_Some in Hv as [[-> _]|[_ Hv]]; [now left |].
    apply lookup_singleton_Some in Hv as [-> _]. now right.
  - intros [-> | ->]; eexists; reflexivity.
Qed.

Lemma FORMAT2FILTER_lookup format :
  is_Some (FORMAT2FILTER !! format) <-> format = "JPEG".
Proof.
  unfold FORMAT2FILTER. split.
  - intros [v Hv]. now apply lookup_singleton_Some in Hv as [-> _].
  - intros ->. eexists. reflexivity.
Qed.

(** On an open writer, and with the default media box,
    [write_image_page] succeeds exactly for the data that the decoder
    reads as an image of mode [L] or [RGB] and of format [JPEG]. *)
Theorem write_image_page_accepts_jpeg_gray_rgb
    (Image_open : string -> exn + Image) (w : world)
    (id : option Z) (contents : string) (contents_id image_id : option Z)
    (parent_id : option Z) :
  out (self w) = true ->
  (exists page,
     fst (write_image_page Image_open id contents contents_id image_id
            None parent_id w) = Ok page)
  <->
  (exists img,
     Image_open contents = inr img /\
     (img_mode img = "L" \/ img_mode img = "RGB") /\
     img_format img = "JPEG").
Proof.
  intros O. split.
  - intros [page H].
    destruct (Image_open contents) as [e|img] eqn:D.
    { rewrite (write_image_page_undecodable_state _ w id contents contents_id
                 image_id None parent_id e O D) in H. discriminate. }
    exists img. split; [reflexivity |].
    destruct (MODE2COLOR_SPACE !! img_mode img) as [cs|] eqn:Hm.
    2:{ destruct (write_image_page_lookup_raises Image_open w id contents
                    contents_id image_id None parent_id img O D (or_introl Hm))
          as (k & w' & E).
        rewrite E in H. discriminate. }
    destruct (FORMAT2FILTER !! img_format img) as [f|] eqn:Hf.
    2:{ destruct (write_image_page_lookup_raises Image_open w id contents
                    contents_id image_id None parent_id img O D (or_intror Hf))
          as (k & w' & E).
        rewrite E in H. discriminate. }
    split.
    + apply MODE2COLOR_SPACE_lookup. now exists cs.
    + apply FORMAT2FILTER_lookup. now exists f.
  - intros (img & D & Hm & Hf).
    apply MODE2COLOR_SPACE_lookup in Hm as [cs Hm].
    apply FORMAT2FILTER_lookup in Hf as [f Hf].
    eexists.
    apply (write_image_page_open Image_open w id contents contents_id image_id
             None parent_id img cs f
             ("0", "0", pretty (fst (img_size img)), pretty (snd (img_size img)))
             O D Hm Hf).
    repeat split; reflexivity.
Qed.

Lemma write_image_page_accepts_jpeg_gray_rgb_witness :
  (exists page,
     fst (write_image_page sample_decoder None "Color" None None None None
            new_writer) = Ok page)
  <->
  (exists img,
     sample_decoder "Color" = inr img /\
     (img_mode img = "L" \/ img_mode img = "RGB") /\
     img_format img = "JPEG").
Proof.
  apply (write_image_page_accepts_jpeg_gray_rgb sample_decoder new_writer
           None "Color" None None None).
  reflexivity.
Defined.

(** ** Dictionaries *)

Lemma dict_entries_loop entries : forall bs w,
  out (self w) = true ->
  Forall2 (fun e b => e.1 = b.1 /\ as_ascii e.2 = inr b.2) entries bs ->
  for_each entries (fun e => start_dict_entry e.1 (_write e.2)) w
    = (Ok tt, emit (entries_bytes bs) w).
Proof.
  induction entries as [|[k v] entries IH]; intros bs w H Hes.
  - apply Forall2_nil_inv_l in Hes as ->.
    rewrite for_each_nil. cbn. now rewrite emit_nil.
  - apply Forall2_cons_inv_l in Hes as ([k' b] & bs' & [Hk Hv] & Hes & ->).
    cbn in Hk, Hv. subst k'.
    rewrite for_each_cons. cbn [entries_bytes]. unfold bind at 1.
    assert (E : start_dict_entry k (_write v) w = (Ok tt, emit (entry_bytes k b) w)).
    { destruct_world w. subst. etransitivity; [run |].
      unfold entry_bytes. cbn. world_eq. }
    cbn [fst snd]. rewrite E, (IH bs') by (destruct_world w; assumption).
    now rewrite emit_emit.
Qed.

(** A dictionary whose entries are written one by one comes out as the
    entries, each as [/key value] on a line of its own, between [<<] and
    [>>]. *)
Theorem start_dict_writes_entries (w : world) (entries : list (string * pyval))
    (bs : list (string * string)) :
  out (self w) = true ->
  Forall2 (fun e b => e.1 = b.1 /\ as_ascii e.2 = inr b.2) entries bs ->
  let r := start_dict
             (for_each entries (fun e => start_dict_entry e.1 (_write e.2))) w in
  fst r = Ok tt /\
  sink (snd r) = sink w +:+ header_bytes w +:+ dict_bytes (entries_bytes bs).
Proof.
  intros O Hes. cbv zeta. unfold start_dict.
  assert (E : exists w',
    with_ (_write_header ;; _write (Bytes ("<<" +:+ nl)))
      (_write (Bytes (">>" +:+ nl)))
      (fun _ => for_each entries (fun e => start_dict_entry e.1 (_write e.2))) w
    = (Ok tt, w') /\
    sink w' = sink w +:+ header_bytes w +:+ dict_bytes (entries_bytes bs)).
  { destruct w as [[o ow ids ps root [|n] x] s c cs]; cbn in * |-; subst o.
    - eexists. split.
      + eapply run_with.
        * run.
        * etransitivity;
            [ eapply (dict_entries_loop entries bs); [reflexivity | exact Hes]
            | cbn; reflexivity ].
        * run.
      + cbn. unfold header_bytes, dict_bytes. cbn. norm_str. reflexivity.
    - eexists. split.
      + eapply run_with.
        * run.
        * etransitivity;
            [ eapply (dict_entries_loop entries bs); [reflexivity | exact Hes]
            | cbn; reflexivity ].
        * run.
      + cbn. unfold header_bytes, dict_bytes. cbn. norm_str. reflexivity. }
  destruct E as (w' & E & S). rewrite E. auto.
Qed.

Lemma start_dict_writes_entries_witness :
  let r := start_dict
             (for_each [("Type", Bytes "/Font"); ("Size", Int 12)]
                (fun e => start_dict_entry e.1 (_write e.2))) new_writer in
  fst r = Ok tt /\
  sink (snd r) =
    sink new_writer +:+ header_bytes new_writer +:+
    dict_bytes (entries_bytes [("Type", "/Font"); ("Size", "12")]).
Proof.
  apply (start_dict_writes_entries new_writer
           [("Type", Bytes "/Font"); ("Size", Int 12)]
           [("Type", "/Font"); ("Size", "12")]).
  - reflexivity.
  - repeat constructor.
Defined.

(** ** Objects built by the caller *)

Lemma after_header_emit w :
  after_header w = emit (header_bytes w) w.
Proof.
  unfold after_header, header_bytes.
  destruct (_pos (self w) =? 0)%nat; [reflexivity | now rewrite emit_nil].
Qed.

Lemma after_header_position w : _pos (self (after_header w)) <> 0%nat.
Proof.
  unfold after_header. destruct w as [[o ow ids ps root [|n] x] s c cs]; cbn; lia.
Qed.

Lemma start_dict_entries_run entries bs w :
  out (self w) = true -> _pos (self w) <> 0%nat ->
  Forall2 (fun e b => e.1 = b.1 /\ as_ascii e.2 = inr b.2) entries bs ->
  start_dict (for_each entries (fun e => start_dict_entry e.1 (_write e.2))) w
    = (Ok tt, emit (dict_bytes (entries_bytes bs)) w).
Proof.
  intros O P Hes.
  destruct w as [[o ow ids ps root [|n] x] s c cs]; cbn in * |-; subst o;
    [congruence |].
  etransitivity.
  - unfold start_dict. eapply run_with.
    + run.
    + etransitivity;
        [ eapply (dict_entries_loop entries bs); [reflexivity | exact Hes]
        | cbn; reflexivity ].
    + run.
  - unfold dict_bytes. cbn. world_eq.
Qed.

Lemma start_stream_run data d w :
  out (self w) = true -> _pos (self w) <> 0%nat -> as_ascii data = inr d ->
  start_stream (_write data) w = (Ok tt, emit (stream_bytes d) w).
Proof.
  intros O P Hd.
  destruct w as [[o ow ids ps root [|n] x] s c cs]; cbn in * |-; subst o;
    [congruence |].
  etransitivity; [run |]. unfold stream_bytes. cbn. world_eq.
Qed.

(** An object that the caller builds from the scopes, a dictionary of
    entries followed by a stream, comes out as one well-formed object:
    the header [<id> 0 obj], the dictionary, the stream and [endobj].
    The id is the one given or else the next id of the allocator, the
    call returns it, and the offset recorded for it is the position of
    the object's header. *)
Theorem start_object_writes_stream_object (w : world) (id : option Z)
    (entries : list (string * pyval)) (bs : list (string * string))
    (data : pyval) (d : string) :
  out (self w) = true ->
  Forall2 (fun e b => e.1 = b.1 /\ as_ascii e.2 = inr b.2) entries bs ->
  as_ascii data = inr d ->
  let object_id := default (_id_stream (self w)) id in
  let r := start_object id (fun id' =>
             start_dict
               (for_each entries (fun e => start_dict_entry e.1 (_write e.2))) ;;
             start_stream (_write data) ;;
             ret id') w in
  fst r = Ok object_id /\
  sink (snd r) =
    sink w +:+ header_bytes w +:+
    object_bytes object_id (dict_bytes (entries_bytes bs) +:+ stream_bytes d) /\
  _xrefs (self (snd r)) =
    <[object_id := (_pos (self w) + String.length (header_bytes w))%nat]>
      (_xrefs (self w)) /\
  _id_stream (self (snd r)) =
    match id with
    | Some _ => _id_stream (self w)
    | None => _id_stream (self w) + 1
    end.
Proof.
  intros O Hes Hd. cbv zeta.
  unfold start_object. rewrite (header_first_with _ _ _ w O).
  match goal with |- context [with_ ?e ?x ?b (after_header w)] =>
    change (with_ e x b) with (start_object id b)
  end.
  erewrite (start_object_written id _
              (dict_bytes (entries_bytes bs) +:+ stream_bytes d) (fun k => k)).
  - unfold object_written. rewrite after_header_emit.
    destruct w as [[o ow ids ps root pos x] s c cs], id as [id|]; cbn;
      rewrite ?str_app_assoc; repeat split; reflexivity.
  - now apply after_header_open.
  - apply after_header_position.
  - intros k w1 O1 P1.
    eapply run_bind; [apply (start_dict_entries_run entries bs w1 O1 P1 Hes) |].
    cbv beta.
    assert (O2 : out (self (emit (dict_bytes (entries_bytes bs)) w1)) = true)
      by (destruct w1 as [[]]; exact O1).
    assert (P2 : _pos (self (emit (dict_bytes (entries_bytes bs)) w1)) <> 0%nat)
      by (now apply position_nonzero_emit).
    eapply run_bind; [apply (start_stream_run data d _ O2 P2 Hd) |].
    cbv beta. rewrite emit_emit. reflexivity.
Qed.

Lemma start_object_writes_stream_object_witness :
  let r := start_object None (fun id' =>
             start_dict
               (for_each [("Length", Int 5)]
                  (fun e => start_dict_entry e.1 (_write e.2))) ;;
             start_stream (_write (Bytes "BT ET")) ;;
             ret id') new_writer in
  fst r = Ok 1 /\
  sink (snd r) =
    sink new_writer +:+ header_bytes new_writer +:+
    object_bytes 1 (dict_bytes (entries_bytes [("Length", "5")]) +:+
                    stream_bytes "BT ET") /\
  _xrefs (self (snd r)) = <[1 := 9%nat]> ∅ /\
  _id_stream (self (snd r)) = 2.
Proof.
  apply (start_object_writes_stream_object new_writer None
           [("Length", Int 5)] [("Length", "5")] (Bytes "BT ET") "BT ET").
  - reflexivity.
  - repeat constructor.
  - reflexivity.
Defined.

(** ** The page list and the cross-reference map *)

(** Every id in the page list has an offset in the cross-reference map,
    after whatever the caller did and however it ended, also when a page
    was left unfinished by an exception. So every reference in the
    [Kids] of the page tree that [close] writes is to an object that has
    an entry in the cross-reference table. *)
Theorem kids_have_offsets (Image_open : string -> exn + Image)
    (A : Type) (m : M A) (w : world) :
  caller_code Image_open A m ->
  (forall id, id ∈ _page_ids (self w) -> is_Some (_xrefs (self w) !! id)) ->
  let w' := snd (m w) in
  (forall id, id ∈ _page_ids (self w') -> is_Some (_xrefs (self w') !! id)) /\
  (out (self w') = true ->
   exists rest,
     sink (snd (close w')) =
       sink w' +:+ header_bytes w' +:+
       page_tree_bytes (page_tree_id w') (_page_ids (self w')) +:+ rest /\
     forall id, id ∈ _page_ids (self w') ->
       is_Some (_xrefs (self (snd (close w'))) !! id)).
Proof.
  intros Hm Hw.
  assert (K : always pages_started m).
  { apply (caller_code_always pages_started) with (dec := Image_open);
      [ .. | apply always_close | exact Hm ].
    all: try (intros [[]]; unfold pages_started; cbn; intros; now auto).
    - intros [[o ow i ps r p x] s c cs] id Hs H id' Hin. cbn in *.
      apply elem_of_app in Hin as [Hin | Hin]; [now apply H |].
      apply list_elem_of_singleton in Hin as ->. exact Hs.
    - intros [[o ow i ps r p x] s c cs] id pos H id' Hin. cbn in *.
      apply lookup_insert_is_Some'. right. now apply H.
    - intros [[o ow i ps r p x] s c cs] id pos H id' Hin. cbn in *.
      apply lookup_insert_is_Some'. right. now apply H. }
  specialize (K w Hw). cbv zeta. split; [exact K |].
  intros O. pose proof (close_open (snd (m w)) O) as C. cbv zeta in C.
  destruct C as (_ & C2 & C3 & _).
  eexists. split.
  - rewrite C2. unfold close_bytes. reflexivity.
  - intros id Hin. rewrite C3. unfold closing_xrefs.
    apply lookup_insert_is_Some'. right.
    apply lookup_insert_is_Some'. right. now apply K.
Qed.

Lemma kids_have_offsets_witness :
  let m := (write_page None None None None (Some (Str e_acute)) ;; close) in
  let w' := snd (m new_writer) in
  (forall id, id ∈ _page_ids (self w') -> is_Some (_xrefs (self w') !! id)) /\
  (out (self w') = true ->
   exists rest,
     sink (snd (close w')) =
       sink w' +:+ header_bytes w' +:+
       page_tree_bytes (page_tree_id w') (_page_ids (self w')) +:+ rest /\
     forall id, id ∈ _page_ids (self w') ->
       is_Some (_xrefs (self (snd (close w'))) !! id)).
Proof.
  apply (kids_have_offsets sample_decoder unit
           (write_page None None None None (Some (Str e_acute)) ;; close)
           new_writer).
  - apply cc_bind; [apply cc_write_page | intros _; apply cc_close].
  - intros id Hin. cbn in Hin. now apply elem_of_nil in Hin.
Defined.
